(** * A shallow embedding of the python-teos watchtower core

    The development follows the three components of the tower:
    - [ChainMonitor]  (pisa/chain_monitor.py): best-tip tracking, the sliding
      window of previous tips, the two detection loops and their shutdown;
    - [Appointment]   (pisa/appointment.py): construction from a dictionary
      and the deterministic json export;
    - [Cryptographer] (common/cryptographer.py): the ChaCha20-Poly1305
      envelope and the recoverable signatures in the Lightning encoding.

    Python values are modelled as they occur in the code: [None] or a [str]
    for a block hash, [bytes] as lists of bytes, an [int] as [Z], exceptions
    as an explicit result type. *)

From Stdlib Require Import ZArith NArith Lia Bool Ascii String.
From Stdlib.Strings Require Import Byte.
From Stdlib Require DecimalString DecimalPos DecimalZ.
From stdpp Require Import base option list sorting gmap strings.

Local Open Scope Z_scope.

(** ** Python bytes and binascii *)

Abbreviation bytes := (list byte).

#[global] Instance byte_eq_dec : EqDecision byte := Byte.byte_eq_dec.

Module Bytes.

Definition Z_of_byte (b : byte) : Z := Z.of_N (Byte.to_N b).

Definition byte_of_N (n : N) : byte :=
  match Byte.of_N (n mod 256) with Some b => b | None => x00 end.

Definition byte_of_Z (z : Z) : byte := byte_of_N (Z.to_N (z mod 256)).

(** [int.from_bytes(bs, 'big')] and [int.from_bytes(bs, 'little')] *)
Definition be_num (bs : bytes) : Z :=
  fold_left (fun acc b => 256 * acc + Z_of_byte b) bs 0.
Definition le_num (bs : bytes) : Z :=
  fold_right (fun b acc => Z_of_byte b + 256 * acc) 0 bs.

(** The [k] low bytes of [n], least or most significant first. *)
Fixpoint le_bytes (k : nat) (n : Z) : bytes :=
  match k with
  | O => []
  | S k' => byte_of_Z n :: le_bytes k' (n / 256)
  end.
Definition be_bytes (k : nat) (n : Z) : bytes := reverse (le_bytes k n).

(** A list cut into pieces of [size] elements; the last may be shorter. *)
Fixpoint chunks_of {A} (fuel size : nat) (l : list A) : list (list A) :=
  match fuel with
  | O => []
  | S fuel' =>
      match l with
      | [] => []
      | _ => take size l :: chunks_of fuel' size (drop size l)
      end
  end.
Definition chunks {A} (size : nat) (l : list A) : list (list A) :=
  chunks_of (length l) size l.

(** The digits of a number in a base, most significant first, and back. *)
Fixpoint be_digits (base : N) (k : nat) (n : N) : list N :=
  match k with
  | O => []
  | S k' => be_digits base k' (n / base) ++ [(n mod base)%N]
  end.
Definition of_digits (base : N) (ds : list N) : N :=
  fold_left (fun acc d => (acc * base + d)%N) ds 0%N.

End Bytes.

Module Binascii.

(** The lower-case hexadecimal digit of a nibble ([binascii.hexlify]
    always produces lower case). *)
Definition hexdigit (n : N) : ascii :=
  if (n <? 10)%N then ascii_of_N (48 + n) else ascii_of_N (87 + n).

(** The value of a hexadecimal digit, either case, as [unhexlify]
    accepts it. *)
Definition unhexdigit (c : ascii) : option N :=
  let n := N_of_ascii c in
  if ((48 <=? n) && (n <=? 57))%N then Some (n - 48)%N
  else if ((97 <=? n) && (n <=? 102))%N then Some (n - 87)%N
  else if ((65 <=? n) && (n <=? 70))%N then Some (n - 55)%N
  else None.

Fixpoint hexlify (data : bytes) : string :=
  match data with
  | [] => EmptyString
  | b :: rest =>
      String (hexdigit (Byte.to_N b / 16))
        (String (hexdigit (Byte.to_N b mod 16)) (hexlify rest))
  end.

(** The decoding of the digits by [unhexlify]: [None] on an odd number of
    digits or on a character that is no hexadecimal digit, where the call
    raises. *)
Fixpoint unhexlify (hexstr : string) : option bytes :=
  match hexstr with
  | EmptyString => Some []
  | String _ EmptyString => None
  | String hi (String lo rest) =>
      match unhexdigit hi, unhexdigit lo, unhexlify rest with
      | Some h, Some l, Some bs => Some (Bytes.byte_of_N (16 * h + l) :: bs)
      | _, _, _ => None
      end
  end.

End Binascii.

(** ** pisa/chain_monitor.py *)

Module ChainMonitor.

(** A block hash as the monitor handles it: [None] (the unset [best_tip]
    of a fresh monitor) or a [str]. *)
Abbreviation tip := (option string).

(** The attributes of a [ChainMonitor] that the monitoring code reads or
    writes.  [check_tip] is the [Event] the polling thread waits on; the
    two queues are the [Queue] objects handed over at construction, of
    which only [put] is ever used. *)
Record t := mk {
  best_tip : tip;
  last_tips : list tip;
  terminate : bool;
  check_tip : bool;
  watcher_queue : list tip;
  responder_queue : list tip
}.

(** [ChainMonitor.__init__] *)
Definition init (watcher_queue responder_queue : list tip) : t :=
  {| best_tip := None; last_tips := []; terminate := false;
     check_tip := false;
     watcher_queue := watcher_queue; responder_queue := responder_queue |}.

(** [notify_subscribers]: one [put] on each queue. *)
Definition notify_subscribers (self : t) (block_hash : tip) : t :=
  {| best_tip := best_tip self; last_tips := last_tips self;
     terminate := terminate self; check_tip := check_tip self;
     watcher_queue := watcher_queue self ++ [block_hash];
     responder_queue := responder_queue self ++ [block_hash] |}.

(** [list.pop(0)]: called only right after an [append], so the list is
    never empty there. *)
Definition pop0 (l : list tip) : list tip := tail l.

(** [update_state(block_hash, max_block_window_size)]: the returned
    boolean together with the monitor after the call. *)
Definition update_state (self : t) (block_hash : tip)
    (max_block_window_size : Z) : bool * t :=
  if bool_decide (block_hash ≠ best_tip self)
     && bool_decide (block_hash ∉ last_tips self)
  then
    let appended := last_tips self ++ [best_tip self] in
    let trimmed :=
      if Z.of_nat (length appended) >? max_block_window_size
      then pop0 appended else appended in
    (true,
     {| best_tip := block_hash; last_tips := trimmed;
        terminate := terminate self; check_tip := check_tip self;
        watcher_queue := watcher_queue self;
        responder_queue := responder_queue self |})
  else (false, self).

(** The critical section shared by both detection paths:
    [lock.acquire(); if update_state(h): notify_subscribers(h);
    lock.release()], with the window size taken from the configuration
    ([BLOCK_WINDOW_SIZE], the default argument of [update_state]). *)
Definition locked_update (BLOCK_WINDOW_SIZE : Z) (self : t)
    (block_hash : tip) : t :=
  let '(changed, self') := update_state self block_hash BLOCK_WINDOW_SIZE in
  if changed then notify_subscribers self' block_hash else self'.

(** What a detection path hands to the critical section. *)
Inductive detection :=
| Polled (current_tip : tip)
    (* polling: [BlockProcessor.get_best_block_hash()] returned this *)
| Pushed (topic body : bytes).
    (* zmq: a message [topic; body; ...] was received *)

Definition hashblock : bytes :=
  ["h"; "a"; "s"; "h"; "b"; "l"; "o"; "c"; "k"]%byte.

(** The candidate hash of a detection, if it leads to an update at all:
    the zmq path ignores every topic but [b"hashblock"] and hex-encodes the
    body. *)
Definition candidate (d : detection) : option tip :=
  match d with
  | Polled current_tip => Some current_tip
  | Pushed topic body =>
      if bool_decide (topic = hashblock)
      then Some (Some (Binascii.hexlify body)) else None
  end.

(** One detection processed under the lock. *)
Definition detect (W : Z) (self : t) (d : detection) : t :=
  match candidate d with
  | Some block_hash => locked_update W self block_hash
  | None => self
  end.

(** A serialized sequence of detections, from either path in any order:
    the lock makes the critical sections run one after the other. *)
Definition run (W : Z) (self : t) (ds : list detection) : t :=
  fold_left (detect W) ds self.

(** A sequence of plain [update_state] calls with one window size. *)
Definition update_all (W : Z) (self : t) (hs : list tip) : t :=
  fold_left (fun st h => (update_state st h W).2) hs self.

(** A sequence of [update_state] calls, each with its own window size. *)
Definition update_calls (self : t) (calls : list (tip * Z)) : t :=
  fold_left (fun st c => (update_state st c.1 c.2).2) calls self.

(** The hash is what the dedup test of [update_state] looks for. *)
Definition recorded (h : tip) (self : t) : Prop :=
  h = best_tip self ∨ h ∈ last_tips self.

(** The hashes put on the queues (the same on both) during a run. *)
Fixpoint delivered (W : Z) (self : t) (ds : list detection) : list tip :=
  match ds with
  | [] => []
  | d :: rest =>
      match candidate d with
      | Some h =>
          if (update_state self h W).1
          then h :: delivered W (detect W self d) rest
          else delivered W (detect W self d) rest
      | None => delivered W (detect W self d) rest
      end
  end.

(** The invariant of the tip state. *)
Definition tips_distinct (self : t) : Prop :=
  (best_tip self ∉ last_tips self) ∧ NoDup (last_tips self).

(** *** The two detection threads

    Each loop is cut at the points where the other thread, or whoever
    shuts the tower down, can interleave: the loop test, the blocking
    call, the test after the blocking call, and the body. *)

(** [monitor_chain_polling]:
    [while not terminate: check_tip.wait(timeout); if not terminate: body] *)
Inductive polling_pc :=
| PLoop      (* at [while not self.terminate] *)
| PWait      (* inside [self.check_tip.wait(timeout=polling_delta)] *)
| PWoken     (* the wait returned; at [if not self.terminate] *)
| PBody      (* past the inner test, before the body *)
| PDone.     (* the loop has been left *)

(** [monitor_chain_zmq]:
    [while not terminate: msg = recv_multipart(); if not terminate: body] *)
Inductive zmq_pc :=
| ZLoop
| ZRecv                       (* inside [zmqSubSocket.recv_multipart()] *)
| ZWoken (msg : list bytes)   (* a message was received *)
| ZBody (msg : list bytes)
| ZDone
| ZFailed.                    (* [msg[0]] or [msg[1]] raised [IndexError] *)

Record system := mksys {
  monitor : t;
  polling : polling_pc;
  zmq : zmq_pc;
  socket : list (list bytes)   (* messages received but not yet read *)
}.

(** What can happen next: the environment acts, or one of the threads
    runs up to its next cut point. *)
Inductive event :=
| Shutdown                    (* [terminate] is set *)
| Signal                      (* [check_tip.set()] *)
| Elapse                      (* a polling interval goes by *)
| Arrive (msg : list bytes)   (* the node publishes a message *)
| PollStep (current_tip : tip)
    (* the polling thread runs; [get_best_block_hash()] would return
       [current_tip] *)
| ZmqStep.                    (* the zmq thread runs *)

Definition set_terminate (self : t) : t :=
  {| best_tip := best_tip self; last_tips := last_tips self;
     terminate := true; check_tip := check_tip self;
     watcher_queue := watcher_queue self;
     responder_queue := responder_queue self |}.

Definition set_check_tip (self : t) : t :=
  {| best_tip := best_tip self; last_tips := last_tips self;
     terminate := terminate self; check_tip := true;
     watcher_queue := watcher_queue self;
     responder_queue := responder_queue self |}.

Definition poll_step (W : Z) (self : t) (pc : polling_pc)
    (current_tip : tip) : t * polling_pc :=
  match pc with
  | PLoop => (self, if terminate self then PDone else PWait)
  | PWait => (self, if check_tip self then PWoken else PWait)
  | PWoken => (self, if terminate self then PLoop else PBody)
  | PBody => (locked_update W self current_tip, PLoop)
  | PDone => (self, PDone)
  end.

Definition zmq_step (W : Z) (self : t) (pc : zmq_pc)
    (sock : list (list bytes)) : t * zmq_pc * list (list bytes) :=
  match pc with
  | ZLoop => (self, if terminate self then ZDone else ZRecv, sock)
  | ZRecv =>
      match sock with
      | msg :: rest => (self, ZWoken msg, rest)
      | [] => (self, ZRecv, sock)
      end
  | ZWoken msg => (self, if terminate self then ZLoop else ZBody msg, sock)
  | ZBody msg =>
      match msg with
      | topic :: body :: _ => (detect W self (Pushed topic body), ZLoop, sock)
      | _ => (self, ZFailed, sock)
      end
  | ZDone => (self, ZDone, sock)
  | ZFailed => (self, ZFailed, sock)
  end.

Definition step (W : Z) (s : system) (e : event) : system :=
  match e with
  | Shutdown =>
      {| monitor := set_terminate (monitor s); polling := polling s;
         zmq := zmq s; socket := socket s |}
  | Signal =>
      {| monitor := set_check_tip (monitor s); polling := polling s;
         zmq := zmq s; socket := socket s |}
  | Elapse =>
      {| monitor := monitor s;
         polling := match polling s with PWait => PWoken | pc => pc end;
         zmq := zmq s; socket := socket s |}
  | Arrive msg =>
      {| monitor := monitor s; polling := polling s; zmq := zmq s;
         socket := socket s ++ [msg] |}
  | PollStep current_tip =>
      let '(m, pc) := poll_step W (monitor s) (polling s) current_tip in
      {| monitor := m; polling := pc; zmq := zmq s; socket := socket s |}
  | ZmqStep =>
      let '(m, pc, sock) := zmq_step W (monitor s) (zmq s) (socket s) in
      {| monitor := m; polling := polling s; zmq := pc; socket := sock |}
  end.

Definition exec (W : Z) (s : system) (evs : list event) : system :=
  fold_left (step W) evs s.

(** [monitor_chain]: [best_tip] is read from the node, then both threads
    are started. *)
Definition monitor_chain (self : t) (current_tip : tip) : system :=
  {| monitor :=
       {| best_tip := current_tip; last_tips := last_tips self;
          terminate := terminate self; check_tip := check_tip self;
          watcher_queue := watcher_queue self;
          responder_queue := responder_queue self |};
     polling := PLoop; zmq := ZLoop; socket := [] |}.



(** Both loops have been left. *)
Definition stopped (s : system) : Prop :=
  polling s = PDone ∧ (zmq s = ZDone ∨ zmq s = ZFailed).


Definition queues (self : t) : list tip * list tip :=
  (watcher_queue self, responder_queue self).


End ChainMonitor.

(** ** Python values, exceptions and results *)

Module Py.

(** The values an appointment field or a json scalar can hold.  A [str] is
    a Rocq string, each character standing for the code point of the same
    number (so code points below 256). *)
Inductive value :=
| None_
| Bool (b : bool)
| Int (n : Z)
| Str (s : string).

#[global] Instance value_eq_dec : EqDecision value.
Proof. solve_decision. Defined.

(** The exceptions that occur in the embedded code.  [binascii.Error] is a
    subclass of [ValueError]. *)
Inductive exn :=
| ValueError (msg : string)
| BinasciiError
| IndexError
| OverflowError
| TypeError (msg : string)
| OtherError (msg : string).

(** The outcome of a call: a returned value or a raised exception. *)
Inductive result (A : Type) :=
| Return (a : A)
| Raise (e : exn).
Arguments Return {A} a.
Arguments Raise {A} e.

Definition bind {A B} (r : result A) (k : A → result B) : result B :=
  match r with Return a => k a | Raise e => Raise e end.

(** [dict.get(key)]: the value, or [None] when the key is absent. *)
Definition get (d : gmap string value) (key : string) : value :=
  default None_ (d !! key).

End Py.

(** ** json.dumps(obj, sort_keys=True, separators=(",", ":")) *)

Module Json.

Definition dquote : ascii := ascii_of_N 34.
Definition backslash : ascii := ascii_of_N 92.

Definition str1 (c : ascii) : string := String c EmptyString.

(** [py_encode_basestring_ascii] on one character: the two-character
    escapes of [ESCAPE_DCT], the printable ASCII characters as they are, and
    [\u00xx] for the rest. *)
Definition escape_char (c : ascii) : string :=
  let n := N_of_ascii c in
  if (n =? 34)%N then String backslash (str1 dquote)
  else if (n =? 92)%N then String backslash (str1 backslash)
  else if (n =? 8)%N then String backslash "b"
  else if (n =? 12)%N then String backslash "f"
  else if (n =? 10)%N then String backslash "n"
  else if (n =? 13)%N then String backslash "r"
  else if (n =? 9)%N then String backslash "t"
  else if ((32 <=? n) && (n <=? 126))%N then str1 c
  else String backslash
         ("u00" ++ String (Binascii.hexdigit (n / 16))
                     (str1 (Binascii.hexdigit (n mod 16)))).

Fixpoint escape (s : string) : string :=
  match s with
  | EmptyString => EmptyString
  | String c rest => escape_char c ++ escape rest
  end.

(** A string between double quotes, as it is. *)
Definition quoted (s : string) : string :=
  String dquote (s ++ str1 dquote).

Definition dump_str (s : string) : string := quoted (escape s).

(** [int.__repr__] *)
Definition dump_int (n : Z) : string :=
  DecimalString.NilZero.string_of_int (Z.to_int n).

Definition dump_value (v : Py.value) : string :=
  match v with
  | Py.None_ => "null"
  | Py.Bool true => "true"
  | Py.Bool false => "false"
  | Py.Int n => dump_int n
  | Py.Str s => dump_str s
  end.

(** A [dict] with [str] keys, in insertion order. *)
Abbreviation dict := (list (string * Py.value)).

(** [d[key] = v]: replaces the value of an existing key in place, appends a
    new key at the end. *)
Fixpoint setitem (d : dict) (key : string) (v : Py.value) : dict :=
  match d with
  | [] => [(key, v)]
  | (k, w) :: rest =>
      if bool_decide (k = key) then (k, v) :: rest
      else (k, w) :: setitem rest key v
  end.

(** The order of [sort_keys=True]: items compared by their keys, [str]
    against [str] by code points. *)
Definition key_le (x y : string * Py.value) : Prop :=
  String.leb x.1 y.1 = true.

#[global] Instance key_le_dec x y : Decision (key_le x y).
Proof. unfold key_le. apply _. Defined.

Definition dump_item (kv : string * Py.value) : string :=
  dump_str kv.1 ++ ":" ++ dump_value kv.2.

Definition dumps (d : dict) : string :=
  "{" ++ String.concat "," (dump_item <$> merge_sort key_le d) ++ "}".

End Json.

(** ** pisa/appointment.py *)

Module Appointment.

(** Modelled from the spec: [pisa/encrypted_blob.py] is not part of the
    sources at hand; its test shows [EncryptedBlob(data).data == data], and
    the spec describes it as a wrapper around the ciphertext hex string
    compared by value. *)
Record EncryptedBlob := { data : Py.value }.

Record t := mk {
  locator : Py.value;
  start_time : Py.value;
  end_time : Py.value;
  to_self_delay : Py.value;
  encrypted_blob : EncryptedBlob
}.

(** [Appointment.__init__] *)
Definition init (locator start_time end_time to_self_delay
    encrypted_blob : Py.value) : t :=
  {| locator := locator; start_time := start_time; end_time := end_time;
     to_self_delay := to_self_delay;
     encrypted_blob := {| data := encrypted_blob |} |}.

(** The keys [from_dict] reads. *)
Definition required_keys : list string :=
  ["locator"; "start_time"; "end_time"; "to_self_delay"; "encrypted_blob"].

Definition is_None (v : Py.value) : bool :=
  match v with Py.None_ => true | _ => false end.

(** [Appointment.from_dict] *)
Definition from_dict (appointment_data : gmap string Py.value)
    : Py.result t :=
  let locator := Py.get appointment_data "locator" in
  let start_time := Py.get appointment_data "start_time" in
  let end_time := Py.get appointment_data "end_time" in
  let to_self_delay := Py.get appointment_data "to_self_delay" in
  let encrypted_blob_data := Py.get appointment_data "encrypted_blob" in
  if existsb is_None
       [locator; start_time; end_time; to_self_delay; encrypted_blob_data]
  then Py.Raise (Py.ValueError "Wrong appointment data, some fields are missing")
  else Py.Return
         (init locator start_time end_time to_self_delay encrypted_blob_data).

(** [Appointment.to_dict] *)
Definition to_dict (self : t) : Json.dict :=
  [("locator", locator self);
   ("start_time", start_time self);
   ("end_time", end_time self);
   ("to_self_delay", to_self_delay self);
   ("encrypted_blob", data (encrypted_blob self))].

(** The dictionary [to_json] hands to [json.dumps]. *)
Definition to_json_dict (self : t) (triggered : bool) : Json.dict :=
  Json.setitem (to_dict self) "triggered" (Py.Bool triggered).

(** [Appointment.to_json] *)
Definition to_json (self : t) (triggered : bool) : string :=
  Json.dumps (to_json_dict self triggered).

(** The format the spec gives for a locator, in its words: exactly 32
    hexadecimal characters. *)
Definition is_hex_char (c : ascii) : bool :=
  match Binascii.unhexdigit c with Some _ => true | None => false end.

Definition locator_well_formed (v : Py.value) : bool :=
  match v with
  | Py.Str s =>
      (String.length s =? 32)%nat && forallb is_hex_char (list_ascii_of_string s)
  | _ => false
  end.

End Appointment.

(** ** The primitives behind [hashlib] and [cryptography]

    [hashlib.sha256] (FIPS 180-4) and [ChaCha20Poly1305] (RFC 8439) are
    third-party code; they are given here by their specifications, on
    32-bit words held in [Z].  The test vector of the repository
    ([test_encrypt], [test_decrypt]) is checked against them below. *)

Definition w32 (x : Z) : Z := x mod 2 ^ 32.

Module Sha256.

(** The largest [r] below [2 ^ k] with [r ^ e <= n], added to [r]. *)
Fixpoint root_bits (e : Z) (k : nat) (n r : Z) : Z :=
  match k with
  | O => r
  | S k' =>
      let r' := r + 2 ^ Z.of_nat k' in
      if r' ^ e <=? n then root_bits e k' n r' else root_bits e k' n r
  end.

Definition primes : list Z :=
  [2; 3; 5; 7; 11; 13; 17; 19; 23; 29; 31; 37; 41; 43; 47; 53; 59; 61; 67;
   71; 73; 79; 83; 89; 97; 101; 103; 107; 109; 113; 127; 131; 137; 139; 149;
   151; 157; 163; 167; 173; 179; 181; 191; 193; 197; 199; 211; 223; 227;
   229; 233; 239; 241; 251; 257; 263; 269; 271; 277; 281; 283; 293; 307;
   311].

(** The first 32 bits of the fractional parts of the cube roots of the
    first 64 primes, and of the square roots of the first 8. *)
Definition K : list Z :=
  Eval vm_compute in
    (fun p => w32 (root_bits 3 40 (p * 2 ^ 96) 0)) <$> primes.
Definition H0 : list Z :=
  Eval vm_compute in
    (fun p => w32 (root_bits 2 40 (p * 2 ^ 64) 0)) <$> take 8 primes.

Definition rotr (n x : Z) : Z :=
  Z.lor (Z.shiftr x n) (w32 (Z.shiftl x (32 - n))).
Definition Ch (x y z : Z) : Z :=
  Z.lxor (Z.land x y) (Z.land (w32 (Z.lnot x)) z).
Definition Maj (x y z : Z) : Z :=
  Z.lxor (Z.lxor (Z.land x y) (Z.land x z)) (Z.land y z).
Definition Sigma0 (x : Z) : Z :=
  Z.lxor (Z.lxor (rotr 2 x) (rotr 13 x)) (rotr 22 x).
Definition Sigma1 (x : Z) : Z :=
  Z.lxor (Z.lxor (rotr 6 x) (rotr 11 x)) (rotr 25 x).
Definition sigma0 (x : Z) : Z :=
  Z.lxor (Z.lxor (rotr 7 x) (rotr 18 x)) (Z.shiftr x 3).
Definition sigma1 (x : Z) : Z :=
  Z.lxor (Z.lxor (rotr 17 x) (rotr 19 x)) (Z.shiftr x 10).

Definition pad (msg : bytes) : bytes :=
  let len := length msg in
  let zeros := ((64 - (len + 9) mod 64) mod 64)%nat in
  msg ++ [x80] ++ replicate zeros x00 ++ Bytes.be_bytes 8 (8 * Z.of_nat len).

(** The message schedule, most recent word first. *)
Fixpoint schedule (n : nat) (ws : list Z) : list Z :=
  match n with
  | O => ws
  | S n' =>
      let w := w32 (sigma1 (nth 1 ws 0) + nth 6 ws 0
                    + sigma0 (nth 14 ws 0) + nth 15 ws 0) in
      schedule n' (w :: ws)
  end.

Definition round (st : list Z) (kw : Z * Z) : list Z :=
  match st with
  | [a; b; c; d; e; f; g; h] =>
      let t1 := h + Sigma1 e + Ch e f g + kw.1 + kw.2 in
      let t2 := Sigma0 a + Maj a b c in
      [w32 (t1 + t2); a; b; c; w32 (d + t1); e; f; g]
  | _ => st
  end.

Definition compress (h : list Z) (block : bytes) : list Z :=
  let w16 := Bytes.be_num <$> Bytes.chunks 4 block in
  let ws := reverse (schedule 48 (reverse w16)) in
  let st := fold_left round (zip K ws) h in
  zip_with (fun x y => w32 (x + y)) h st.

(** [hashlib.sha256(msg).digest()] *)
Definition sha256 (msg : bytes) : bytes :=
  mjoin (Bytes.be_bytes 4
           <$> fold_left compress (Bytes.chunks 64 (pad msg)) H0).

End Sha256.

Module ChaCha20.

Definition add32 (a b : Z) : Z := w32 (a + b).
Definition rotl (n x : Z) : Z :=
  Z.lor (w32 (Z.shiftl x n)) (Z.shiftr x (32 - n)).

Definition quarter_round (a b c d : nat) (st : list Z) : list Z :=
  let get st i := nth i st 0 in
  let st := <[a := add32 (get st a) (get st b)]> st in
  let st := <[d := rotl 16 (Z.lxor (get st d) (get st a))]> st in
  let st := <[c := add32 (get st c) (get st d)]> st in
  let st := <[b := rotl 12 (Z.lxor (get st b) (get st c))]> st in
  let st := <[a := add32 (get st a) (get st b)]> st in
  let st := <[d := rotl 8 (Z.lxor (get st d) (get st a))]> st in
  let st := <[c := add32 (get st c) (get st d)]> st in
  <[b := rotl 7 (Z.lxor (get st b) (get st c))]> st.

Definition double_round (st : list Z) : list Z :=
  let st := quarter_round 0 4 8 12 st in
  let st := quarter_round 1 5 9 13 st in
  let st := quarter_round 2 6 10 14 st in
  let st := quarter_round 3 7 11 15 st in
  let st := quarter_round 0 5 10 15 st in
  let st := quarter_round 1 6 11 12 st in
  let st := quarter_round 2 7 8 13 st in
  quarter_round 3 4 9 14 st.

Definition init_state (key : bytes) (counter : Z) (nonce : bytes) : list Z :=
  [0x61707865; 0x3320646e; 0x79622d32; 0x6b206574]
  ++ (Bytes.le_num <$> Bytes.chunks 4 key) ++ [w32 counter]
  ++ (Bytes.le_num <$> Bytes.chunks 4 nonce).

(** The 64 bytes of key stream of one block. *)
Definition block (key : bytes) (counter : Z) (nonce : bytes) : bytes :=
  let st0 := init_state key counter nonce in
  mjoin (Bytes.le_bytes 4
           <$> zip_with add32 (Nat.iter 10 double_round st0) st0).

Definition xor_byte (a b : byte) : byte :=
  Bytes.byte_of_N (N.lxor (Byte.to_N a) (Byte.to_N b)).

(** [data] xor-ed with the beginning of a key stream. *)
Fixpoint xor_bytes (data ks : bytes) : bytes :=
  match data with
  | [] => []
  | b :: rest => xor_byte b (hd x00 ks) :: xor_bytes rest (tail ks)
  end.

Fixpoint xor_blocks (fuel : nat) (key : bytes) (counter : Z)
    (nonce data : bytes) : bytes :=
  match fuel with
  | O => []
  | S fuel' =>
      match data with
      | [] => []
      | _ =>
          xor_bytes (take 64 data) (block key counter nonce)
          ++ xor_blocks fuel' key (counter + 1) nonce (drop 64 data)
      end
  end.

(** Encryption and decryption are the same xor with the key stream. *)
Definition encrypt (key : bytes) (counter : Z) (nonce data : bytes) : bytes :=
  xor_blocks (length data) key counter nonce data.

End ChaCha20.

Module Poly1305.

Definition p : Z := 2 ^ 130 - 5.
Definition clamp (r : Z) : Z := Z.land r 0x0ffffffc0ffffffc0ffffffc0fffffff.

Definition mac (msg key : bytes) : bytes :=
  let r := clamp (Bytes.le_num (take 16 key)) in
  let s := Bytes.le_num (drop 16 key) in
  let acc :=
    fold_left
      (fun acc blk => ((acc + Bytes.le_num (blk ++ [x01])) * r) mod p)
      (Bytes.chunks 16 msg) 0 in
  Bytes.le_bytes 16 (acc + s).

End Poly1305.

(** [cryptography.hazmat.primitives.ciphers.aead.ChaCha20Poly1305] *)
Module ChaCha20Poly1305.

Definition pad16 (data : bytes) : bytes :=
  replicate ((16 - length data mod 16) mod 16) x00.

Definition tag (key nonce aad ct : bytes) : bytes :=
  let otk := take 32 (ChaCha20.block key 0 nonce) in
  Poly1305.mac
    (aad ++ pad16 aad ++ ct ++ pad16 ct
     ++ Bytes.le_bytes 8 (Z.of_nat (length aad))
     ++ Bytes.le_bytes 8 (Z.of_nat (length ct)))
    otk.

(** [cipher.encrypt(nonce, data, associated_data)]: the ciphertext followed
    by the 16 bytes of the tag. *)
Definition encrypt (key nonce data aad : bytes) : bytes :=
  let ct := ChaCha20.encrypt key 1 nonce data in
  ct ++ tag key nonce aad ct.

(** [cipher.decrypt(nonce, data, associated_data)]; [None] stands for the
    [InvalidTag] exception. *)
Definition decrypt (key nonce data aad : bytes) : option bytes :=
  if (length data <? 16)%nat then None
  else
    let ct := take (length data - 16) data in
    let t := drop (length data - 16) data in
    if bool_decide (t = tag key nonce aad ct)
    then Some (ChaCha20.encrypt key 1 nonce ct) else None.

End ChaCha20Poly1305.

(** ** pyzbase32 and coincurve *)

(** [pyzbase32]: third-party code, given by the zbase32 format: the bits of
    the input, most significant first, in groups of five, the last group
    filled up with zero bits; each group is a character of the alphabet.
    Decoding drops the bits that do not fill a byte. *)
Module ZBase32.

Definition alphabet : list ascii :=
  list_ascii_of_string "ybndrfg8ejkmcpqxot1uwisza345h769".

Definition encode_digit (d : N) : ascii :=
  nth (N.to_nat d) alphabet "y"%char.

Fixpoint index_of (c : ascii) (l : list ascii) (i : N) : option N :=
  match l with
  | [] => None
  | x :: rest => if bool_decide (x = c) then Some i else index_of c rest (i + 1)
  end.

Definition decode_digit (c : ascii) : option N := index_of c alphabet 0.

Fixpoint decode_digits (cs : list ascii) : option (list N) :=
  match cs with
  | [] => Some []
  | c :: rest =>
      match decode_digit c, decode_digits rest with
      | Some d, Some ds => Some (d :: ds)
      | _, _ => None
      end
  end.

(** [pyzbase32.encode_bytes(bs).decode()] *)
Definition encode_bytes (bs : bytes) : string :=
  let nbits := (8 * length bs)%nat in
  let nchars := ((nbits + 4) / 5)%nat in
  let fill := N.of_nat (5 * nchars - nbits) in
  let v := Bytes.of_digits 256 (Byte.to_N <$> bs) in
  string_of_list_ascii
    (encode_digit <$> Bytes.be_digits 32 nchars (N.shiftl v fill)).

(** [pyzbase32.decode_bytes(s)]; a character outside the alphabet raises
    (which exception is not visible in the sources at hand). *)
Definition decode_bytes (s : string) : Py.result bytes :=
  match decode_digits (list_ascii_of_string s) with
  | None => Py.Raise (Py.OtherError "zbase32")
  | Some ds =>
      let nchars := length ds in
      let nbytes := (5 * nchars / 8)%nat in
      let extra := N.of_nat (5 * nchars - 8 * nbytes) in
      Py.Return
        (Bytes.byte_of_N
           <$> Bytes.be_digits 256 nbytes
                 (N.shiftr (Bytes.of_digits 32 ds) extra))
  end.

End ZBase32.

(** What the code uses of [coincurve]: keys, recoverable signatures and
    public-key recovery on secp256k1.  The curve arithmetic is third-party
    code and stays abstract. *)
Class Coincurve := {
  PrivateKey : Type;
  PublicKey : Type;
  Point : Type;
  Point_eq_dec :: EqDecision Point;
  (** [sk.public_key] *)
  public_key : PrivateKey → PublicKey;
  (** [pk.point()] *)
  point : PublicKey → Point;
  (** [sk.sign_recoverable(message, hasher)] *)
  sign_recoverable : PrivateKey → bytes → (bytes → bytes) → bytes;
  (** [PublicKey.from_signature_and_message(sig, message, hasher)] *)
  from_signature_and_message :
    bytes → bytes → (bytes → bytes) → Py.result PublicKey
}.

(** The contract of recoverable signatures: [sign_recoverable] returns the
    64 bytes of the signature followed by a recovery id from 0 to 3, and
    recovery from such a signature and the signed message gives a key on the
    point of the signer's public key. *)
Class CoincurveLaws (C : Coincurve) : Prop := {
  sign_recoverable_format sk message hasher :
    ∃ rsig rid,
      sign_recoverable sk message hasher = rsig ++ [rid]
      ∧ length rsig = 64%nat ∧ (Byte.to_N rid ≤ 3)%N;
  recover_signed sk message hasher :
    ∃ pk,
      from_signature_and_message
        (sign_recoverable sk message hasher) message hasher
      = Py.Return pk
      ∧ point pk = point (public_key sk)
}.

(** ** common/cryptographer.py *)

Module Cryptographer.

Definition LN_MESSAGE_PREFIX : bytes :=
  Eval cbv in list_byte_of_string "Lightning Signed Message:".

(** [sha256d] *)
Definition sha256d (message : bytes) : bytes :=
  Sha256.sha256 (Sha256.sha256 message).

(** [coincurve.utils.int_to_bytes]:
    [num.to_bytes((num.bit_length() + 7) // 8 or 1, 'big')], which raises
    [OverflowError] on a negative number. *)
Definition bit_length (num : Z) : Z :=
  if num =? 0 then 0 else Z.log2 (Z.abs num) + 1.

Definition int_to_bytes (num : Z) : Py.result bytes :=
  if num <? 0 then Py.Raise Py.OverflowError
  else
    let k := Z.to_nat ((bit_length num + 7) / 8) in
    Py.Return (Bytes.be_bytes (match k with O => 1 | _ => k end) num).

(** [sigrec_encode] *)
Definition sigrec_encode (rsig_rid : bytes) : Py.result bytes :=
  let rsig := take 64 rsig_rid in
  match rsig_rid !! 64%nat with
  | None => Py.Raise Py.IndexError
  | Some rid =>
      Py.bind (int_to_bytes (Bytes.Z_of_byte rid + 31))
        (fun first => Py.Return (first ++ rsig))
  end.

(** [sigrec_decode] *)
Definition sigrec_decode (sigrec : bytes) : Py.result bytes :=
  match sigrec with
  | [] => Py.Raise Py.IndexError
  | first :: rsig =>
      Py.bind (int_to_bytes (Bytes.Z_of_byte first - 31))
        (fun rid => Py.Return (rsig ++ rid))
  end.

(** *** Encryption *)

Module Blob.
(** Modelled from the spec: [common/blob.py] is not among the sources; a
    [Blob] holds the plaintext hex string in [data]. *)
Record t := { data : string }.
End Blob.

Module EncryptedBlob.
(** Modelled from the spec: [common/encrypted_blob.py] is not among the
    sources; an [EncryptedBlob] holds the ciphertext hex string in [data]. *)
Record t := { data : string }.
End EncryptedBlob.

Definition is_hex_char (c : ascii) : bool :=
  match Binascii.unhexdigit c with Some _ => true | None => false end.

(** Modelled from the spec: [common/tools.py] is not among the sources.  The
    spec asks for a secret of exactly 64 hex characters, and the test of
    [check_sha256_hex_format] accepts 64 hex digits of either case and
    rejects [None], an [int], and strings that are shorter, longer or hold
    another character. *)
Definition check_sha256_hex_format (value : Py.value) : bool :=
  match value with
  | Py.Str s =>
      (String.length s =? 64)%nat
      && forallb is_hex_char (list_ascii_of_string s)
  | _ => false
  end.

(** The operations on key material and cipher that a call executes. *)
Inductive op :=
| KeyDerivation     (* [sha256(...).digest()] *)
| CipherSetup       (* [ChaCha20Poly1305(sk)] *)
| CipherEncrypt     (* [cipher.encrypt(...)] *)
| CipherDecrypt.    (* [cipher.decrypt(...)] *)

(** A call: the operations it has executed, in order, and its outcome. *)
Definition M (A : Type) : Type := list op * Py.result A.

Definition ret {A} (a : A) : M A := ([], Py.Return a).
Definition lift {A} (r : Py.result A) : M A := ([], r).
Definition exec {A} (o : op) (a : A) : M A := ([o], Py.Return a).
Definition bind {A B} (m : M A) (k : A → M B) : M B :=
  match m with
  | (ops, Py.Return a) => let '(ops', r) := k a in (ops ++ ops', r)
  | (ops, Py.Raise e) => (ops, Py.Raise e)
  end.

Notation "'let*' x := m 'in' k" := (bind m (fun x => k))
  (at level 10, x pattern, m at level 100, k at level 200).

(** [check_data_key_format] *)
Definition check_data_key_format (data : string) (secret : Py.value)
    : Py.result bool :=
  if negb (String.length data mod 2 =? 0)%nat
  then Py.Raise (Py.ValueError "Incorrect (Odd-length) value")
  else if negb (check_sha256_hex_format secret)
  then Py.Raise
         (Py.ValueError "Secret must be a 32-byte hex value (64 hex chars)")
  else Py.Return true.

(** A [str] argument of [binascii.unhexlify] is first converted to ASCII:
    a character outside ASCII is refused there, with a plain [ValueError]. *)
Definition is_ascii_char (c : ascii) : bool := (N_of_ascii c <? 128)%N.

Definition only_ascii (s : string) : bool :=
  forallb is_ascii_char (list_ascii_of_string s).

(** [unhexlify] on a [str], and on a value that has passed no type check.
    The conversion to ASCII comes first; [binascii.Error] is for an odd
    number of digits and for an ASCII character that is no hex digit. *)
Definition unhexlify (hexstr : string) : Py.result bytes :=
  if negb (only_ascii hexstr)
  then Py.Raise
         (Py.ValueError "string argument should contain only ASCII characters")
  else match Binascii.unhexlify hexstr with
       | Some bs => Py.Return bs
       | None => Py.Raise Py.BinasciiError
       end.

Definition unhexlify_value (v : Py.value) : Py.result bytes :=
  match v with
  | Py.Str s => unhexlify s
  | _ => Py.Raise (Py.TypeError "a bytes-like object is required")
  end.

(** [ChaCha20Poly1305(key)] raises [ValueError] unless the key has 32 bytes. *)
Definition new_cipher (key : bytes) : M bytes :=
  if (length key =? 32)%nat then exec CipherSetup key
  else ([CipherSetup],
        Py.Raise (Py.ValueError "ChaCha20Poly1305 key must be 32 bytes.")).

(** [bytearray(12)] *)
Definition zero_nonce : bytes := replicate 12 x00.

(** [Cryptographer.encrypt].  The module-level [logger] is taken to have
    been set by the caller, as the tests do; logging is left out. *)
Definition encrypt (blob : Blob.t) (secret : Py.value) : M string :=
  let* _ := lift (check_data_key_format (Blob.data blob) secret) in
  let* tx := lift (unhexlify (Blob.data blob)) in
  let* secret_bytes := lift (unhexlify_value secret) in
  let* sk := exec KeyDerivation (Sha256.sha256 secret_bytes) in
  let nonce := zero_nonce in
  let* cipher := new_cipher sk in
  let* encrypted_blob :=
    exec CipherEncrypt (ChaCha20Poly1305.encrypt cipher nonce tx []) in
  ret (Binascii.hexlify encrypted_blob).

(** [Cryptographer.decrypt]: the hex string, or [None] after [InvalidTag]. *)
Definition decrypt (encrypted_blob : EncryptedBlob.t) (secret : Py.value)
    : M (option string) :=
  let* _ :=
    lift (check_data_key_format (EncryptedBlob.data encrypted_blob) secret) in
  let* secret_bytes := lift (unhexlify_value secret) in
  let* sk := exec KeyDerivation (Sha256.sha256 secret_bytes) in
  let nonce := zero_nonce in
  let* cipher := new_cipher sk in
  let* data := lift (unhexlify (EncryptedBlob.data encrypted_blob)) in
  let* blob :=
    exec CipherDecrypt (ChaCha20Poly1305.decrypt cipher nonce data []) in
  ret (Binascii.hexlify <$> blob).

(** The precondition of the spec on [blob.data], in its words: valid hex of
    even length. *)
Definition even_length_hex (s : string) : bool :=
  (String.length s mod 2 =? 0)%nat
  && forallb is_hex_char (list_ascii_of_string s).

(** [str.lower] on ASCII. *)
Definition lower_char (c : ascii) : ascii :=
  let n := N_of_ascii c in
  if ((65 <=? n) && (n <=? 90))%N then ascii_of_N (n + 32) else c.

Fixpoint lower (s : string) : string :=
  match s with
  | EmptyString => EmptyString
  | String c rest => String (lower_char c) (lower rest)
  end.

(** *** Signatures *)

Section Signatures.
Context {C : Coincurve}.

(** [Cryptographer.sign], for a [bytes] message and a [PrivateKey] (the two
    [isinstance] tests pass). *)
Definition sign (message : bytes) (sk : PrivateKey)
    : Py.result (option string) :=
  let rsig_rid := sign_recoverable sk (LN_MESSAGE_PREFIX ++ message) sha256d in
  Py.bind (sigrec_encode rsig_rid)
    (fun sigrec => Py.Return (Some (ZBase32.encode_bytes sigrec))).

(** [Cryptographer.recover_pk], for a [bytes] message and a [str] signature
    (the two [isinstance] tests pass).  The decoding of the signature comes
    before the [try]; inside it, [except ValueError] and [except Exception]
    both end in [return None]. *)
Definition recover_pk (message : bytes) (zb32_sig : string)
    : Py.result (option PublicKey) :=
  Py.bind (ZBase32.decode_bytes zb32_sig) (fun sigrec =>
  Py.bind (sigrec_decode sigrec) (fun rsig_recid =>
    match from_signature_and_message rsig_recid
            (LN_MESSAGE_PREFIX ++ message) sha256d with
    | Py.Return pk => Py.Return (Some pk)
    | Py.Raise _ => Py.Return None
    end)).

(** [Cryptographer.verify_rpk] *)
Definition verify_rpk (pk rpk : PublicKey) : bool :=
  bool_decide (point pk = point rpk).

End Signatures.

End Cryptographer.

(** A small instance of the [coincurve] interface, to show that its laws
    can be met: keys are single bytes, the public key is the private key,
    and a signature carries the key in its first byte.  It stands for no
    signature scheme in use. *)
Module ByteCurve.

Definition sign_byte (sk : byte) (message : bytes)
    (hasher : bytes → bytes) : bytes :=
  (sk :: replicate 63 x00) ++ [x00].

Definition recover_byte (sig message : bytes)
    (hasher : bytes → bytes) : Py.result byte :=
  if (length sig =? 65)%nat
  then match sig with
       | k :: _ => Py.Return k
       | [] => Py.Raise (Py.ValueError "empty")
       end
  else Py.Raise (Py.ValueError "Serialized signature must be 65 bytes long.").

#[export] Instance curve : Coincurve := {|
  PrivateKey := byte;
  PublicKey := byte;
  Point := byte;
  public_key := id;
  point := id;
  sign_recoverable := sign_byte;
  from_signature_and_message := recover_byte
|}.

End ByteCurve.

(** ** The tips a monitor remembers *)

(** What the test of [update_state] compares a candidate with: the sliding
    window followed by the current best tip, oldest first. *)
Definition remembered_tips (self : ChainMonitor.t) : list (option string) :=
  ChainMonitor.last_tips self ++ [ChainMonitor.best_tip self].

(** ** Printable ASCII *)

(** The characters from the space to the tilde. *)
Definition printable (c : ascii) : bool :=
  ((32 <=? N_of_ascii c) && (N_of_ascii c <=? 126))%N.

Fixpoint all_printable (s : string) : bool :=
  match s with
  | EmptyString => true
  | String c rest => printable c && all_printable rest
  end.

(** ** Reading json scalars *)

(** The character that an escape of [py_encode_basestring_ascii] at the
    head of a string stands for, with the rest of the string; nothing at a
    closing quote or at a malformed escape. *)
Definition unescape_head (s : string) : option (ascii * string) :=
  match s with
  | EmptyString => None
  | String c rest =>
      if (N_of_ascii c =? 34)%N then None
      else if (N_of_ascii c =? 92)%N then
        match rest with
        | EmptyString => None
        | String e rest' =>
            let n := N_of_ascii e in
            if ((n =? 34) || (n =? 92))%N then Some (e, rest')
            else if (n =? 98)%N then Some (ascii_of_N 8, rest')
            else if (n =? 102)%N then Some (ascii_of_N 12, rest')
            else if (n =? 110)%N then Some (ascii_of_N 10, rest')
            else if (n =? 114)%N then Some (ascii_of_N 13, rest')
            else if (n =? 116)%N then Some (ascii_of_N 9, rest')
            else if (n =? 117)%N then
              match rest' with
              | String _ (String _ (String h (String l rest''))) =>
                  match Binascii.unhexdigit h, Binascii.unhexdigit l with
                  | Some a, Some b => Some (ascii_of_N (16 * a + b), rest'')
                  | _, _ => None
                  end
              | _ => None
              end
            else None
        end
      else Some (c, rest)
  end.

(** The characters of a json integer: the minus sign and the digits. *)
Definition num_char (c : ascii) : bool :=
  ((N_of_ascii c =? 45)
   || ((48 <=? N_of_ascii c) && (N_of_ascii c <=? 57)))%N.

Fixpoint all_num (s : string) : bool :=
  match s with
  | EmptyString => true
  | String c rest => num_char c && all_num rest
  end.

(** What the first character of a json scalar tells about it. *)
Definition char_class (c : ascii) : N :=
  let n := N_of_ascii c in
  if (n =? 110)%N then 0%N
  else if (n =? 116)%N then 1%N
  else if (n =? 102)%N then 2%N
  else if (n =? 34)%N then 3%N
  else if num_char c then 4%N
  else 5%N.

Definition value_class (v : Py.value) : N :=
  match v with
  | Py.None_ => 0%N
  | Py.Bool true => 1%N
  | Py.Bool false => 2%N
  | Py.Str _ => 3%N
  | Py.Int _ => 4%N
  end.

(** The string begins with a comma or a closing brace, the two characters
    that follow a value in the output of [json.dumps]. *)
Definition at_delimiter (s : string) : bool :=
  match s with
  | String c _ => ((N_of_ascii c =? 44) || (N_of_ascii c =? 125))%N
  | EmptyString => false
  end.

(** The primitives are computed with, not unfolded, in the proofs. *)
Arguments Sha256.sha256 : simpl never.
Arguments ChaCha20.block : simpl never.
Arguments ChaCha20Poly1305.encrypt : simpl never.
Arguments ChaCha20Poly1305.decrypt : simpl never.
Arguments ChaCha20Poly1305.tag : simpl never.

(** * Properties *)

(** ** ChainMonitor: deduplication and the sliding window *)

Section ChainMonitorFacts.
Import ChainMonitor.

Implicit Types (s : t) (h : tip) (W : Z) (ds : list detection).

Lemma update_state_seen W s h :
  recorded h s → update_state s h W = (false, s).
Proof.
  intros Hrec. unfold update_state.
  destruct Hrec as [Heq | Hin].
  - rewrite (bool_decide_eq_false_2 (h ≠ best_tip s)) by (intros Hne; by apply Hne).
    done.
  - rewrite (bool_decide_eq_false_2 (h ∉ last_tips s)) by (intros Hni; by apply Hni).
    by rewrite andb_false_r.
Qed.

Lemma update_state_changed W s h :
  (update_state s h W).1 = true → ¬ recorded h s.
Proof.
  intros Hch Hrec. by rewrite (update_state_seen W s h Hrec) in Hch.
Qed.

Lemma run_app W s ds1 ds2 :
  run W s (ds1 ++ ds2) = run W (run W s ds1) ds2.
Proof. apply fold_left_app. Qed.

Lemma delivered_app W s ds1 ds2 :
  delivered W s (ds1 ++ ds2)
  = delivered W s ds1 ++ delivered W (run W s ds1) ds2.
Proof.
  revert s. induction ds1 as [| d ds1 IH]; intros s; [done |].
  cbn [app delivered run fold_left].
  destruct (candidate d) as [c |]; [destruct (update_state s c W).1 |];
    cbn; by rewrite IH.
Qed.

Lemma detect_queues W s d :
  watcher_queue (detect W s d)
  = watcher_queue s ++ delivered W s [d]
  ∧ responder_queue (detect W s d)
    = responder_queue s ++ delivered W s [d].
Proof.
  unfold detect, locked_update. cbn [delivered].
  destruct (candidate d) as [c |]; [| by rewrite !app_nil_r].
  unfold update_state.
  destruct (_ && _); cbn; by rewrite ?app_nil_r.
Qed.

(** Both queues grow by exactly the delivered hashes, in order. *)
Lemma run_queues W s ds :
  watcher_queue (run W s ds) = watcher_queue s ++ delivered W s ds
  ∧ responder_queue (run W s ds) = responder_queue s ++ delivered W s ds.
Proof.
  induction ds as [| d ds IH] using rev_ind.
  - cbn. by rewrite !app_nil_r.
  - rewrite run_app, delivered_app. cbn [run fold_left].
    destruct (detect_queues W (run W s ds) d) as [-> ->].
    destruct IH as [-> ->]. by rewrite !app_assoc.
Qed.

Lemma delivered_stays W s h ds :
  (∀ pre post, ds = pre ++ post → recorded h (run W s pre)) →
  (h ∉ delivered W s ds).
Proof.
  revert s. induction ds as [| d ds IH]; intros s Hstay.
  - apply not_elem_of_nil.
  - assert (Hnow : recorded h s) by exact (Hstay [] (d :: ds) eq_refl).
    assert (Hrest : h ∉ delivered W (detect W s d) ds).
    { apply IH. intros pre post ->. exact (Hstay (d :: pre) post eq_refl). }
    cbn [delivered]. destruct (candidate d) as [c |]; [| done].
    destruct (update_state s c W).1 eqn:Hch; [| done].
    apply not_elem_of_cons. split; [| done].
    intros ->. by apply (update_state_changed W s c).
Qed.

Lemma delivered_once W s h ds :
  (∀ pre post, ds = pre ++ post →
     h ∈ delivered W s pre → recorded h (run W s pre)) →
  (length (filter (eq h) (delivered W s ds)) ≤ 1)%nat.
Proof.
  induction ds as [| d ds IH] using rev_ind; intros Hwin; [cbn; lia |].
  rewrite delivered_app, filter_app, length_app.
  assert (IH' : (length (filter (eq h) (delivered W s ds)) ≤ 1)%nat).
  { apply IH. intros pre post ->. apply (Hwin pre (post ++ [d])).
    by rewrite app_assoc. }
  cbn [delivered]. destruct (candidate d) as [c |]; [| cbn; lia].
  destruct (update_state (run W s ds) c W).1 eqn:Hch; [| cbn; lia].
  destruct (decide (h = c)) as [<- | Hne].
  - destruct (decide (h ∈ delivered W s ds)) as [Hin | Hni].
    + exfalso. apply (update_state_changed W (run W s ds) h Hch).
      by apply (Hwin ds [d]).
    + assert (filter (eq h) (delivered W s ds) = []) as ->.
      { destruct (filter (eq h) (delivered W s ds)) as [| x l] eqn:Hf; [done |].
        assert (Hx : x ∈ filter (eq h) (delivered W s ds))
          by (rewrite Hf; apply list_elem_of_here).
        apply list_elem_of_filter in Hx as [<- Hx]. done. }
      rewrite filter_cons_True by done. cbn. lia.
  - rewrite filter_cons_False by done. cbn. lia.
Qed.

(** C1. A candidate equal to [best_tip] or present in [last_tips] makes
    [update_state] return [False] and leave the monitor as it is, and the
    critical section of either detection path then puts nothing on the
    queues.  Hence, in any serialized run of detections from both paths, a
    hash is not delivered while it stays recorded, and it is delivered at
    most once as long as it stays recorded after its delivery. *)
Theorem recorded_tip_not_renotified W s h :
  recorded h s →
  update_state s h W = (false, s)
  ∧ locked_update W s h = s
  ∧ (∀ d, candidate d = Some h →
       detect W s d = s ∧ delivered W s [d] = [])
  ∧ (∀ ds,
       (∀ pre post, ds = pre ++ post → recorded h (run W s pre)) →
       (h ∉ delivered W s ds)
       ∧ watcher_queue (run W s ds) = watcher_queue s ++ delivered W s ds
       ∧ responder_queue (run W s ds)
         = responder_queue s ++ delivered W s ds)
  ∧ (∀ s0 ds,
       (∀ pre post, ds = pre ++ post →
          h ∈ delivered W s0 pre → recorded h (run W s0 pre)) →
       (length (filter (eq h) (delivered W s0 ds)) ≤ 1)%nat).
Proof.
  intros Hrec.
  pose proof (update_state_seen W s h Hrec) as Hupd.
  split; [exact Hupd |].
  split; [unfold locked_update; by rewrite Hupd |].
  split.
  { intros d Hd. unfold detect, locked_update. cbn [delivered].
    by rewrite Hd, Hupd. }
  split.
  - intros ds Hstay. split; [by apply delivered_stays |].
    apply run_queues.
  - intros s0 ds. apply delivered_once.
Qed.

Lemma update_state_length W s h :
  Z.of_nat (length (last_tips s)) ≤ W →
  Z.of_nat (length (last_tips (update_state s h W).2)) ≤ W.
Proof.
  intros Hlen. unfold update_state.
  destruct (_ && _); [| done]. cbn [snd last_tips].
  destruct (Z.gtb_spec (Z.of_nat (length (last_tips s ++ [best_tip s]))) W)
    as [Hgt | Hle]; [| done].
  unfold pop0. destruct (last_tips s ++ [best_tip s]) as [| x l] eqn:Happ;
    cbn [tail length] in *; [lia |].
  apply (f_equal length) in Happ. rewrite length_app in Happ.
  cbn [length] in Happ. lia.
Qed.

Lemma update_all_length W s hs :
  Z.of_nat (length (last_tips s)) ≤ W →
  Z.of_nat (length (last_tips (update_all W s hs))) ≤ W.
Proof.
  revert s. induction hs as [| h hs IH]; intros s Hlen; [done |].
  cbn. apply IH. by apply update_state_length.
Qed.

(** C2. A candidate that differs from [best_tip] and is absent from
    [last_tips] is accepted: [update_state] returns [True], [best_tip]
    becomes the candidate, the previous [best_tip] is appended to the back
    of [last_tips], and when the list is then longer than the window its
    front element is dropped; nothing else changes.  With one window size
    [W], a list that starts no longer than [W] is no longer than [W] after
    every call of every sequence of calls. *)
Theorem new_tip_slides_window W s h :
  h ≠ best_tip s → h ∉ last_tips s →
  (update_state s h W).1 = true
  ∧ best_tip (update_state s h W).2 = h
  ∧ (Z.of_nat (length (last_tips s ++ [best_tip s])) ≤ W →
     last_tips (update_state s h W).2 = last_tips s ++ [best_tip s])
  ∧ (Z.of_nat (length (last_tips s ++ [best_tip s])) > W →
     ∃ oldest,
       last_tips s ++ [best_tip s]
       = oldest :: last_tips (update_state s h W).2)
  ∧ terminate (update_state s h W).2 = terminate s
  ∧ check_tip (update_state s h W).2 = check_tip s
  ∧ queues (update_state s h W).2 = queues s
  ∧ (∀ s0 hs k,
       Z.of_nat (length (last_tips s0)) ≤ W →
       Z.of_nat (length (last_tips (update_all W s0 (take k hs)))) ≤ W).
Proof.
  intros Hbest Hlast. unfold update_state.
  rewrite !bool_decide_eq_true_2 by done. cbn [andb fst snd best_tip last_tips
    terminate check_tip queues watcher_queue responder_queue].
  repeat split.
  - intros Hle.
    destruct (Z.gtb_spec (Z.of_nat (length (last_tips s ++ [best_tip s]))) W);
      [lia | done].
  - intros Hgt.
    destruct (Z.gtb_spec (Z.of_nat (length (last_tips s ++ [best_tip s]))) W);
      [| lia].
    destruct (last_tips s ++ [best_tip s]) as [| x l] eqn:Happ.
    + by destruct (last_tips s).
    + by exists x.
  - intros s0 hs k. apply update_all_length.
Qed.

Lemma tips_distinct_update W s h :
  tips_distinct s → tips_distinct (update_state s h W).2.
Proof.
  intros [Hbest Hnodup]. unfold update_state.
  destruct (bool_decide (h ≠ best_tip s)) eqn:Hb; [| done].
  destruct (bool_decide (h ∉ last_tips s)) eqn:Hl; [| done].
  apply bool_decide_eq_true_1 in Hb, Hl.
  assert (Hall : (h ∉ last_tips s ++ [best_tip s])
                 ∧ NoDup (last_tips s ++ [best_tip s])).
  { split.
    - rewrite elem_of_app, list_elem_of_singleton. tauto.
    - apply NoDup_app. split; [done |]. split; [| apply NoDup_singleton].
      intros x Hx ->%list_elem_of_singleton. done. }
  destruct Hall as [Hnew Hnd].
  cbn [andb snd]. unfold tips_distinct. cbn [best_tip last_tips].
  destruct (_ >? _); [| done].
  unfold pop0. destruct (last_tips s ++ [best_tip s]) as [| x l]; [done |].
  cbn [tail]. apply not_elem_of_cons in Hnew as [_ Hnew].
  apply NoDup_cons in Hnd as [_ Hnd]. done.
Qed.

(** C10. A freshly constructed monitor has a [best_tip] that is not in
    [last_tips] and a [last_tips] without duplicates; every
    [update_state] call, whatever its candidate and window size, keeps
    both, so they hold after every sequence of calls. *)
Theorem tips_distinct_invariant :
  (∀ wq rq, tips_distinct (init wq rq))
  ∧ (∀ s h W, tips_distinct s → tips_distinct (update_state s h W).2)
  ∧ (∀ wq rq calls,
       (best_tip (update_calls (init wq rq) calls)
          ∉ last_tips (update_calls (init wq rq) calls))
       ∧ NoDup (last_tips (update_calls (init wq rq) calls))).
Proof.
  assert (Hinit : ∀ wq rq, tips_distinct (init wq rq)).
  { intros. split; [apply not_elem_of_nil | apply NoDup_nil_2]. }
  split; [exact Hinit |].
  split; [intros; by apply tips_distinct_update |].
  intros wq rq calls. generalize (Hinit wq rq).
  generalize (init wq rq) as s0. clear Hinit.
  induction calls as [| c calls IH]; intros s0 Hs0; [done |].
  cbn. apply IH. by apply tips_distinct_update.
Qed.

End ChainMonitorFacts.

(** ** ChainMonitor: shutdown of the two detection loops *)

Section ShutdownFacts.
Import ChainMonitor.

Variable W : Z.
Implicit Types (s : system) (e : event) (evs : list event).
















End ShutdownFacts.

(** ** ChainMonitor: the statements at concrete monitors *)

Section ChainMonitorExamples.
Import ChainMonitor.

(** Two blocks seen after start-up, window of six. *)
Lemma recorded_tip_not_renotified_witness :
  let s := {| best_tip := Some "b2"; last_tips := [None; Some "b1"];
              terminate := false; check_tip := false;
              watcher_queue := [Some "b1"; Some "b2"];
              responder_queue := [Some "b1"; Some "b2"] |} in
  recorded (Some "b1") s
  ∧ update_state s (Some "b1") 6 = (false, s)
  ∧ detect 6 s (Polled (Some "b1")) = s.
Proof.
  intros s.
  assert (Hrec : recorded (Some "b1") s).
  { right. apply list_elem_of_further, list_elem_of_here. }
  split; [exact Hrec |].
  destruct (recorded_tip_not_renotified 6 s (Some "b1") Hrec)
    as (Hupd & _ & Hdet & _).
  split; [exact Hupd |].
  exact (proj1 (Hdet (Polled (Some "b1")) eq_refl)).
Defined.

(** A third block with a window of two: the oldest entry is dropped. *)
Lemma new_tip_slides_window_witness :
  let s := {| best_tip := Some "b2"; last_tips := [None; Some "b1"];
              terminate := false; check_tip := false;
              watcher_queue := []; responder_queue := [] |} in
  Some "b3" ≠ best_tip s
  ∧ (Some "b3" ∉ last_tips s)
  ∧ (update_state s (Some "b3") 2).1 = true
  ∧ best_tip (update_state s (Some "b3") 2).2 = Some "b3".
Proof.
  intros s.
  assert (Hbest : Some "b3" ≠ best_tip s) by (cbn; congruence).
  assert (Hlast : Some "b3" ∉ last_tips s).
  { cbn. rewrite !not_elem_of_cons. repeat split; try congruence.
    apply not_elem_of_nil. }
  split; [exact Hbest |]. split; [exact Hlast |].
  destruct (new_tip_slides_window 2 s (Some "b3") Hbest Hlast)
    as (Hret & Hnew & _).
  split; [exact Hret | exact Hnew].
Defined.



End ChainMonitorExamples.

(** ** Appointment: the deterministic json export *)

Section AppointmentFacts.
Import Appointment.

Lemma string_leb_trans s1 s2 s3 :
  String.leb s1 s2 = true → String.leb s2 s3 = true →
  String.leb s1 s3 = true.
Proof.
  unfold String.leb. revert s2 s3.
  induction s1 as [| a s1 IH]; intros [| b s2] [| c s3]; cbn; try done.
  unfold Ascii.compare.
  destruct (N.compare_spec (N_of_ascii a) (N_of_ascii b));
    destruct (N.compare_spec (N_of_ascii b) (N_of_ascii c));
    destruct (N.compare_spec (N_of_ascii a) (N_of_ascii c));
    try done; try lia.
  apply IH.
Qed.

#[local] Instance key_le_trans : Transitive Json.key_le.
Proof. intros x y z. apply string_leb_trans. Qed.

#[local] Instance key_le_total : Total Json.key_le.
Proof. intros x y. apply String.leb_total. Qed.

Lemma lookup_unique (l : Json.dict) k v1 v2 :
  NoDup l.*1 → (k, v1) ∈ l → (k, v2) ∈ l → v1 = v2.
Proof.
  induction l as [| [k' v'] l IH]; intros Hnd H1 H2.
  - by apply elem_of_nil in H1.
  - cbn in Hnd. apply NoDup_cons in Hnd as [Hk Hnd].
    apply elem_of_cons in H1 as [H1 | H1], H2 as [H2 | H2].
    + congruence.
    + injection H1 as -> ->. exfalso. apply Hk.
      by apply (list_elem_of_fmap_2 fst) in H2.
    + injection H2 as -> ->. exfalso. apply Hk.
      by apply (list_elem_of_fmap_2 fst) in H1.
    + by apply IH.
Qed.

(** With distinct keys, the sorted items depend on the items only, not on
    the order they were inserted in. *)
Lemma sorted_items_unique (d1 d2 : Json.dict) :
  NoDup d2.*1 → d1 ≡ₚ d2 →
  merge_sort Json.key_le d1 = merge_sort Json.key_le d2.
Proof.
  intros Hnd Hperm.
  apply (Sorted_unique_strong Json.key_le).
  - intros [k1 v1] [k2 v2] H1 H2 Hle1 Hle2.
    rewrite merge_sort_Permutation in H1, H2. rewrite Hperm in H1.
    assert (k1 = k2) as -> by (by apply String.leb_antisym).
    f_equal. by apply (lookup_unique d2 k2).
  - apply Sorted_merge_sort, _.
  - apply Sorted_merge_sort, _.
  - by rewrite !merge_sort_Permutation.
Qed.

Lemma to_json_dict_keys self triggered :
  (to_json_dict self triggered).*1
  = ["locator"; "start_time"; "end_time"; "to_self_delay"; "encrypted_blob";
     "triggered"].
Proof. reflexivity. Qed.

Lemma string_app_assoc (a b c : string) :
  ((a ++ b) ++ c = a ++ (b ++ c))%string.
Proof.
  induction a as [| x a IH]; [reflexivity |].
  change (String x ((a ++ b) ++ c) = String x (a ++ (b ++ c)))%string.
  by rewrite IH.
Qed.

(** What [sort_keys=True] makes of the dictionary of [to_json]. *)
Lemma sorted_to_json_dict self triggered :
  merge_sort Json.key_le (to_json_dict self triggered)
  = [("encrypted_blob", data (encrypted_blob self));
     ("end_time", end_time self);
     ("locator", locator self);
     ("start_time", start_time self);
     ("to_self_delay", to_self_delay self);
     ("triggered", Py.Bool triggered)].
Proof. reflexivity. Qed.

(** C7. [to_json] is a function of the five fields and the flag alone; its
    output lists the six keys in sorted order, each as [key:value] with
    [,] between the items and nothing else, the flag under the key
    [triggered]; and [json.dumps] produces that same string from the same
    items in any insertion order. *)
Theorem to_json_canonical (self : t) (triggered : bool) (d : Json.dict) :
  d ≡ₚ to_json_dict self triggered →
  Json.dumps d = to_json self triggered
  ∧ to_json self triggered
    = ("{" ++ Json.quoted "encrypted_blob" ++ ":"
          ++ Json.dump_value (data (encrypted_blob self))
      ++ "," ++ Json.quoted "end_time" ++ ":"
          ++ Json.dump_value (end_time self)
      ++ "," ++ Json.quoted "locator" ++ ":"
          ++ Json.dump_value (locator self)
      ++ "," ++ Json.quoted "start_time" ++ ":"
          ++ Json.dump_value (start_time self)
      ++ "," ++ Json.quoted "to_self_delay" ++ ":"
          ++ Json.dump_value (to_self_delay self)
      ++ "," ++ Json.quoted "triggered" ++ ":"
          ++ (if triggered then "true" else "false")
      ++ "}")%string
  ∧ (∀ other : t,
       locator other = locator self → start_time other = start_time self →
       end_time other = end_time self →
       to_self_delay other = to_self_delay self →
       data (encrypted_blob other) = data (encrypted_blob self) →
       to_json other triggered = to_json self triggered).
Proof.
  intros Hperm. split; [| split].
  - unfold to_json, Json.dumps.
    rewrite (sorted_items_unique d (to_json_dict self triggered)); [done | | done].
    rewrite to_json_dict_keys.
    repeat (apply NoDup_cons_2;
            [rewrite ?not_elem_of_cons; repeat split; try discriminate;
             apply not_elem_of_nil |]).
    apply NoDup_nil_2.
  - unfold to_json, Json.dumps.
    rewrite (sorted_to_json_dict self triggered).
    cbn [fmap list_fmap String.concat]. unfold Json.dump_item. cbn [fst snd].
    rewrite !string_app_assoc.
    by destruct triggered.
  - intros [l s e d' [b]] Hl Hs He Hd Hb. cbn in *. by subst.
Qed.

Lemma from_dict_spec (d : gmap string Py.value) :
  (Forall (fun k => Py.get d k ≠ Py.None_) required_keys
   ∧ from_dict d
     = Py.Return (init (Py.get d "locator") (Py.get d "start_time")
                    (Py.get d "end_time") (Py.get d "to_self_delay")
                    (Py.get d "encrypted_blob")))
  ∨ (Exists (fun k => Py.get d k = Py.None_) required_keys
     ∧ from_dict d
       = Py.Raise
           (Py.ValueError "Wrong appointment data, some fields are missing")).
Proof.
  unfold from_dict, required_keys.
  destruct (Py.get d "locator") eqn:H1;
    [right; split; [repeat constructor; done | done] | ..];
    (destruct (Py.get d "start_time") eqn:H2;
     [right; split;
      [apply Exists_cons_tl; repeat constructor; done | done] | ..]);
    (destruct (Py.get d "end_time") eqn:H3;
     [right; split;
      [do 2 apply Exists_cons_tl; repeat constructor; done | done] | ..]);
    (destruct (Py.get d "to_self_delay") eqn:H4;
     [right; split;
      [do 3 apply Exists_cons_tl; repeat constructor; done | done] | ..]);
    (destruct (Py.get d "encrypted_blob") eqn:H5;
     [right; split;
      [do 4 apply Exists_cons_tl; repeat constructor; done | done] | ..]);
    left; (split; [repeat constructor; congruence | done]).
Qed.

(** C8, as the code has it.  [from_dict] succeeds exactly when each of the
    five keys has a value other than [None]; the appointment then carries
    the values of the dictionary unchanged, and every locator value other
    than [None] is accepted in place of the given one: its length and its
    characters are not looked at.  Construction fails only when a field is
    missing: a dictionary with the five fields present builds the
    appointment of its values, and a raised exception means that one of the
    five is absent or [None]. *)
Theorem from_dict_checks_presence_only (d : gmap string Py.value) (a : t) :
  from_dict d = Py.Return a →
  Forall (fun k => Py.get d k ≠ Py.None_) required_keys
  ∧ locator a = Py.get d "locator"
  ∧ start_time a = Py.get d "start_time"
  ∧ end_time a = Py.get d "end_time"
  ∧ to_self_delay a = Py.get d "to_self_delay"
  ∧ data (encrypted_blob a) = Py.get d "encrypted_blob"
  ∧ (∀ v, v ≠ Py.None_ →
       ∃ a', from_dict (<["locator" := v]> d) = Py.Return a'
             ∧ locator a' = v)
  ∧ (∀ d' : gmap string Py.value,
       Exists (fun k => Py.get d' k = Py.None_) required_keys →
       ∃ msg, from_dict d' = Py.Raise (Py.ValueError msg))
  ∧ (∀ d' : gmap string Py.value,
       Forall (fun k => Py.get d' k ≠ Py.None_) required_keys →
       from_dict d'
       = Py.Return (init (Py.get d' "locator") (Py.get d' "start_time")
                      (Py.get d' "end_time") (Py.get d' "to_self_delay")
                      (Py.get d' "encrypted_blob")))
  ∧ (∀ (d' : gmap string Py.value) (e : Py.exn),
       from_dict d' = Py.Raise e →
       Exists (fun k => Py.get d' k = Py.None_) required_keys).
Proof.
  intros Hok.
  destruct (from_dict_spec d) as [[Hall Heq] | [_ Heq]];
    rewrite Heq in Hok; [| done].
  injection Hok as <-. cbn [init locator start_time end_time to_self_delay
                              encrypted_blob data].
  repeat (split; [done |]). split; [| split; [| split]].
  - intros v Hv.
    destruct (from_dict_spec (<["locator" := v]> d)) as [[_ Heq'] | [Hex _]].
    + eexists. split; [exact Heq' |]. cbn. unfold Py.get.
      by rewrite lookup_insert_eq.
    + exfalso. unfold required_keys in *.
      rewrite !Forall_cons in Hall. rewrite !Exists_cons in Hex.
      unfold Py.get in *. rewrite lookup_insert_eq in Hex.
      rewrite !lookup_insert_ne in Hex by done. cbn in Hex.
      rewrite Exists_nil in Hex. tauto.
  - intros d' Hex.
    destruct (from_dict_spec d') as [[Hall' _] | [_ Heq']]; [| by eexists].
    exfalso. unfold required_keys in *.
    rewrite !Forall_cons in Hall'. rewrite !Exists_cons, Exists_nil in Hex.
    tauto.
  - intros d' Hall'.
    destruct (from_dict_spec d') as [[_ Heq'] | [Hex _]]; [done |].
    exfalso. unfold required_keys in *.
    rewrite !Forall_cons in Hall'. rewrite !Exists_cons, Exists_nil in Hex.
    tauto.
  - intros d' e Hraise.
    destruct (from_dict_spec d') as [[_ Heq'] | [Hex _]]; [| done].
    by rewrite Heq' in Hraise.
Qed.

End AppointmentFacts.

(** ** Appointment: the statements at concrete appointments *)

Section AppointmentExamples.
Import Appointment.

(** The items of an appointment, inserted in reverse order. *)
Lemma to_json_canonical_witness :
  let a := init (Py.Str "4a5e1e4baab89f3a32518a88c31bc87f") (Py.Int 100)
             (Py.Int 200) (Py.Int 20) (Py.Str "8f3102") in
  let d := [("triggered", Py.Bool false); ("encrypted_blob", Py.Str "8f3102");
            ("to_self_delay", Py.Int 20); ("end_time", Py.Int 200);
            ("start_time", Py.Int 100);
            ("locator", Py.Str "4a5e1e4baab89f3a32518a88c31bc87f")] in
  d ≡ₚ to_json_dict a false ∧ Json.dumps d = to_json a false.
Proof.
  intros a d.
  assert (Hperm : d ≡ₚ to_json_dict a false).
  { change (reverse (to_json_dict a false) ≡ₚ to_json_dict a false).
    apply reverse_Permutation. }
  split; [exact Hperm |].
  exact (proj1 (to_json_canonical a false d Hperm)).
Defined.

Lemma from_dict_checks_presence_only_witness :
  let d : gmap string Py.value :=
    list_to_map [("locator", Py.Str "4a5e1e4baab89f3a32518a88c31bc87f");
                 ("start_time", Py.Int 100); ("end_time", Py.Int 200);
                 ("to_self_delay", Py.Int 20);
                 ("encrypted_blob", Py.Str "8f3102")] in
  let a := init (Py.Str "4a5e1e4baab89f3a32518a88c31bc87f") (Py.Int 100)
             (Py.Int 200) (Py.Int 20) (Py.Str "8f3102") in
  from_dict d = Py.Return a ∧ locator a = Py.get d "locator".
Proof.
  intros d a.
  assert (Hok : from_dict d = Py.Return a) by (vm_compute; reflexivity).
  split; [exact Hok |].
  exact (proj1 (proj2 (from_dict_checks_presence_only d a Hok))).
Defined.

(** C8 as stated fails: a dictionary whose locator is the two characters
    [zz] builds an appointment. *)
Lemma from_dict_accepts_malformed_locator :
  let d : gmap string Py.value :=
    list_to_map [("locator", Py.Str "zz");
                 ("start_time", Py.Int 100); ("end_time", Py.Int 200);
                 ("to_self_delay", Py.Int 20);
                 ("encrypted_blob", Py.Str "8f3102")] in
  ∃ a, from_dict d = Py.Return a
       ∧ locator a = Py.Str "zz"
       ∧ locator_well_formed (locator a) = false.
Proof.
  intros d. eexists. split; [vm_compute; reflexivity |]. split; reflexivity.
Qed.

End AppointmentExamples.

(** ** Bytes, hexadecimal strings and the cipher *)

Section ByteFacts.

Lemma to_N_byte_of_N (n : N) :
  Byte.to_N (Bytes.byte_of_N n) = (n mod 256)%N.
Proof.
  unfold Bytes.byte_of_N.
  destruct (Byte.of_N (n mod 256)) as [b |] eqn:Hb.
  - by apply Byte.to_of_N.
  - apply Byte.of_N_None_iff in Hb.
    pose proof (N.mod_upper_bound n 256). lia.
Qed.

Lemma byte_of_N_to_N (b : byte) : Bytes.byte_of_N (Byte.to_N b) = b.
Proof.
  unfold Bytes.byte_of_N.
  rewrite N.mod_small by (pose proof (Byte.to_N_bounded b); lia).
  by rewrite Byte.of_to_N.
Qed.

Lemma to_N_inj (a b : byte) : Byte.to_N a = Byte.to_N b → a = b.
Proof.
  intros H. rewrite <- (byte_of_N_to_N a), <- (byte_of_N_to_N b).
  by rewrite H.
Qed.

Lemma length_le_bytes (k : nat) (n : Z) : length (Bytes.le_bytes k n) = k.
Proof.
  revert n. induction k as [| k IH]; intros n; cbn; [done | by rewrite IH].
Qed.

Lemma length_be_bytes (k : nat) (n : Z) : length (Bytes.be_bytes k n) = k.
Proof. unfold Bytes.be_bytes. by rewrite length_reverse, length_le_bytes. Qed.

Lemma N_lxor_mod (x y n : N) :
  (N.lxor x y mod 2 ^ n = N.lxor (x mod 2 ^ n) (y mod 2 ^ n))%N.
Proof.
  apply N.bits_inj. intros i. rewrite N.lxor_spec.
  destruct (N.lt_ge_cases i n) as [Hlt | Hge].
  - by rewrite !N.mod_pow2_bits_low, N.lxor_spec by done.
  - by rewrite !N.mod_pow2_bits_high by done.
Qed.

Lemma xor_byte_involutive (a b : byte) :
  ChaCha20.xor_byte (ChaCha20.xor_byte a b) b = a.
Proof.
  apply to_N_inj. unfold ChaCha20.xor_byte.
  rewrite !to_N_byte_of_N. change 256%N with (2 ^ 8)%N.
  rewrite N_lxor_mod, N.Div0.mod_mod.
  rewrite <- N_lxor_mod, N.lxor_assoc, N.lxor_nilpotent, N.lxor_0_r.
  apply N.mod_small. pose proof (Byte.to_N_bounded a). cbn. lia.
Qed.

Lemma xor_bytes_involutive (data ks : bytes) :
  ChaCha20.xor_bytes (ChaCha20.xor_bytes data ks) ks = data.
Proof.
  revert ks. induction data as [| b data IH]; intros ks; cbn; [done |].
  by rewrite xor_byte_involutive, IH.
Qed.

Lemma length_xor_bytes (data ks : bytes) :
  length (ChaCha20.xor_bytes data ks) = length data.
Proof.
  revert ks. induction data as [| b data IH]; intros ks; cbn; [done |].
  by rewrite IH.
Qed.

Lemma xor_blocks_nil fuel key counter nonce :
  ChaCha20.xor_blocks fuel key counter nonce [] = [].
Proof. by destruct fuel. Qed.

Lemma xor_blocks_cons fuel key counter nonce b (data : bytes) :
  ChaCha20.xor_blocks (S fuel) key counter nonce (b :: data)
  = ChaCha20.xor_bytes (take 64 (b :: data)) (ChaCha20.block key counter nonce)
    ++ ChaCha20.xor_blocks fuel key (counter + 1) nonce (drop 64 (b :: data)).
Proof. reflexivity. Qed.

Lemma xor_blocks_involutive fuel key counter nonce (data : bytes) :
  (length data ≤ fuel)%nat →
  ChaCha20.xor_blocks fuel key counter nonce
    (ChaCha20.xor_blocks fuel key counter nonce data) = data
  ∧ length (ChaCha20.xor_blocks fuel key counter nonce data) = length data.
Proof.
  revert counter data.
  induction fuel as [| fuel IH]; intros counter data Hlen.
  - destruct data; cbn [length] in *; [done | lia].
  - destruct data as [| b data]; [done |].
    rewrite xor_blocks_cons.
    assert (Hd : (length (drop 64 (b :: data)) ≤ fuel)%nat).
    { rewrite length_drop. cbn [length] in *. lia. }
    destruct (IH (counter + 1) (drop 64 (b :: data)) Hd) as [Hinv Hl].
    remember (ChaCha20.block key counter nonce) as blk eqn:Hblk.
    generalize dependent
      (ChaCha20.xor_blocks fuel key (counter + 1) nonce (drop 64 (b :: data))).
    intros R Hinv Hl.
    pose proof (length_xor_bytes (take 64 (b :: data)) blk) as HX.
    pose proof (xor_bytes_involutive (take 64 (b :: data)) blk) as HXinv.
    generalize dependent (ChaCha20.xor_bytes (take 64 (b :: data)) blk).
    intros X HX HXinv.
    assert (Hsplit : take 64 (X ++ R) = X ∧ drop 64 (X ++ R) = R).
    { destruct (decide (64 ≤ length (b :: data))%nat) as [Hge | Hlt].
      - rewrite length_take in HX.
        assert (length X = 64%nat) by lia.
        split; [by apply take_app_length' | by apply drop_app_length'].
      - assert (drop 64 (b :: data) = []) as Hnil by (apply drop_ge; lia).
        rewrite Hnil in Hl. destruct R; [| done].
        rewrite app_nil_r. rewrite length_take in HX.
        split; [apply take_ge; lia | apply drop_ge; lia]. }
    destruct Hsplit as [Ht Hdr].
    assert (Hne : ∃ x r, X ++ R = x :: r).
    { destruct X as [| x X]; [done |]. by exists x, (X ++ R). }
    destruct Hne as (x & r & Hxr).
    split.
    + rewrite Hxr, xor_blocks_cons, <- Hxr, Ht, Hdr, <- Hblk, HXinv, Hinv.
      apply take_drop.
    + rewrite length_app, HX, Hl, <- length_app. by rewrite take_drop.
Qed.

Lemma chacha20_encrypt_involutive key counter nonce (data : bytes) :
  ChaCha20.encrypt key counter nonce (ChaCha20.encrypt key counter nonce data)
  = data.
Proof.
  unfold ChaCha20.encrypt.
  destruct (xor_blocks_involutive (length data) key counter nonce data
              (le_n _)) as [Hinv Hlen].
  by rewrite Hlen.
Qed.

Lemma length_tag key nonce aad ct :
  length (ChaCha20Poly1305.tag key nonce aad ct) = 16%nat.
Proof. apply length_le_bytes. Qed.

(** Authenticated decryption undoes encryption under the same key, nonce
    and associated data. *)
Lemma aead_decrypt_encrypt key nonce data aad :
  ChaCha20Poly1305.decrypt key nonce
    (ChaCha20Poly1305.encrypt key nonce data aad) aad
  = Some data.
Proof.
  unfold ChaCha20Poly1305.decrypt, ChaCha20Poly1305.encrypt.
  set (ct := ChaCha20.encrypt key 1 nonce data).
  pose proof (length_tag key nonce aad ct) as Htag.
  rewrite length_app, Htag.
  destruct (Nat.ltb_spec (length ct + 16) 16); [lia |].
  replace (length ct + 16 - 16)%nat with (length ct) by lia.
  rewrite take_app_length, drop_app_length.
  rewrite bool_decide_eq_true_2 by done.
  subst ct. by rewrite chacha20_encrypt_involutive.
Qed.

Lemma string_pair_ind (P : string → Prop) :
  P EmptyString → (∀ c, P (String c EmptyString)) →
  (∀ a b s, P s → P (String a (String b s))) →
  ∀ s, P s.
Proof.
  intros H0 H1 H2 s.
  enough (P s ∧ ∀ c, P (String c s)) by tauto.
  induction s as [| a s [IHs IHc]]; [done |].
  split; [apply IHc | intros c; by apply H2].
Qed.

Lemma unhexdigit_lower (c : ascii) (h : N) :
  Binascii.unhexdigit c = Some h →
  (h < 16)%N ∧ Binascii.hexdigit h = Cryptographer.lower_char c.
Proof.
  destruct c as [[] [] [] [] [] [] [] []]; intros H; cbv in H;
    try discriminate H; simplify_eq; split; reflexivity.
Qed.

Lemma unhexdigit_hexdigit (n : N) :
  (n < 16)%N → Binascii.unhexdigit (Binascii.hexdigit n) = Some n.
Proof.
  intros Hn. rewrite <- (N2Nat.id n).
  assert (Hk : (N.to_nat n < 16)%nat) by lia.
  clear Hn. revert Hk. generalize (N.to_nat n). intros k Hk.
  do 16 (destruct k as [| k]; [reflexivity |]). lia.
Qed.

Lemma unhexlify_hexlify (data : bytes) :
  Binascii.unhexlify (Binascii.hexlify data) = Some data.
Proof.
  induction data as [| b data IH]; [done |].
  cbn [Binascii.hexlify Binascii.unhexlify].
  pose proof (Byte.to_N_bounded b) as Hb.
  rewrite !unhexdigit_hexdigit, IH.
  - by rewrite <- N.div_mod, byte_of_N_to_N by done.
  - by apply N.mod_upper_bound.
  - apply N.Div0.div_lt_upper_bound. lia.
Qed.

Lemma hexlify_unhexlify (s : string) (data : bytes) :
  Binascii.unhexlify s = Some data →
  Binascii.hexlify data = Cryptographer.lower s.
Proof.
  revert data. induction s as [| c | a b s IH] using string_pair_ind;
    intros data H; cbn [Binascii.unhexlify] in H.
  - by injection H as <-.
  - done.
  - destruct (Binascii.unhexdigit a) as [h |] eqn:Ha; [| done].
    destruct (Binascii.unhexdigit b) as [l |] eqn:Hb; [| done].
    destruct (Binascii.unhexlify s) as [rest |] eqn:Hs; [| done].
    injection H as <-.
    apply unhexdigit_lower in Ha as [Hh Ha], Hb as [Hl Hb].
    cbn [Binascii.hexlify Cryptographer.lower].
    rewrite to_N_byte_of_N, N.mod_small by lia.
    replace ((16 * h + l) / 16)%N with h
      by (apply (N.div_unique (16 * h + l) 16 h l); lia).
    replace ((16 * h + l) mod 16)%N with l
      by (apply (N.mod_unique (16 * h + l) 16 h l); lia).
    by rewrite Ha, Hb, (IH rest eq_refl).
Qed.

Lemma length_hexlify_even (data : bytes) :
  (String.length (Binascii.hexlify data) mod 2 =? 0)%nat = true.
Proof.
  induction data as [| b data IH]; [done |].
  cbn [Binascii.hexlify String.length].
  replace (S (S (String.length (Binascii.hexlify data))))
    with (String.length (Binascii.hexlify data) + 1 * 2)%nat by lia.
  by rewrite Nat.Div0.mod_add.
Qed.

Lemma hex_chars_unhexlify (s : string) :
  (String.length s mod 2 =? 0)%nat = true →
  forallb Cryptographer.is_hex_char (list_ascii_of_string s) = true →
  ∃ data, Binascii.unhexlify s = Some data.
Proof.
  induction s as [| c | a b s IH] using string_pair_ind;
    intros Hlen Hhex.
  - by exists [].
  - done.
  - cbn [String.length] in Hlen.
    replace (S (S (String.length s)))
      with (String.length s + 1 * 2)%nat in Hlen by lia.
    rewrite Nat.Div0.mod_add in Hlen.
    cbn [list_ascii_of_string forallb] in Hhex.
    apply andb_true_iff in Hhex as [Ha Hhex].
    apply andb_true_iff in Hhex as [Hb Hhex].
    destruct (IH Hlen Hhex) as [rest Hrest].
    unfold Cryptographer.is_hex_char in Ha, Hb.
    cbn [Binascii.unhexlify].
    destruct (Binascii.unhexdigit a); [| done].
    destruct (Binascii.unhexdigit b); [| done].
    rewrite Hrest. by eexists.
Qed.

Lemma round_length (st : list Z) kw :
  length st = 8%nat → length (Sha256.round st kw) = 8%nat.
Proof.
  intros H. do 9 (destruct st as [| ? st]; try done).
Qed.

Lemma compress_length (h : list Z) (block : bytes) :
  length h = 8%nat → length (Sha256.compress h block) = 8%nat.
Proof.
  intros H. unfold Sha256.compress. rewrite length_zip_with, H.
  generalize (zip Sha256.K
                (reverse (Sha256.schedule 48
                   (reverse (Bytes.be_num <$> Bytes.chunks 4 block))))).
  intros kws.
  enough (length (fold_left Sha256.round kws h) = 8%nat) as -> by done.
  revert h H. induction kws as [| kw kws IH]; intros h H; [done |].
  cbn [fold_left]. apply IH. by apply round_length.
Qed.

Lemma length_sha256 (msg : bytes) : length (Sha256.sha256 msg) = 32%nat.
Proof.
  unfold Sha256.sha256.
  generalize (Bytes.chunks 64 (Sha256.pad msg)). intros blocks.
  assert (H : length (fold_left Sha256.compress blocks Sha256.H0) = 8%nat).
  { assert (H0 : length Sha256.H0 = 8%nat) by reflexivity.
    revert H0. generalize Sha256.H0.
    induction blocks as [| b blocks IH]; intros h Hh; [done |].
    cbn [fold_left]. apply IH. by apply compress_length. }
  revert H. generalize (fold_left Sha256.compress blocks Sha256.H0).
  intros h H.
  do 9 (destruct h as [| ? h]; try done).
Qed.

End ByteFacts.

(** ** Cryptographer: the encrypted envelope *)

Section EnvelopeFacts.
Import Cryptographer.

Lemma unhexdigit_is_ascii (c : ascii) (n : N) :
  Binascii.unhexdigit c = Some n → is_ascii_char c = true.
Proof.
  unfold Binascii.unhexdigit, is_ascii_char. intros H. apply N.ltb_lt.
  destruct (N.leb_spec 48 (N_of_ascii c)), (N.leb_spec (N_of_ascii c) 57),
    (N.leb_spec 97 (N_of_ascii c)), (N.leb_spec (N_of_ascii c) 102),
    (N.leb_spec 65 (N_of_ascii c)), (N.leb_spec (N_of_ascii c) 70);
    cbn in H; try done; lia.
Qed.

Lemma unhexlify_only_ascii (s : string) (data : bytes) :
  Binascii.unhexlify s = Some data → only_ascii s = true.
Proof.
  unfold only_ascii.
  revert data. induction s as [| c | a b s IH] using string_pair_ind;
    intros data H; cbn [Binascii.unhexlify] in H; [done | done |].
  cbn [list_ascii_of_string forallb].
  destruct (Binascii.unhexdigit a) as [h |] eqn:Ha; [| done].
  destruct (Binascii.unhexdigit b) as [l |] eqn:Hb; [| done].
  destruct (Binascii.unhexlify s) as [rest |]; [| done].
  by rewrite (unhexdigit_is_ascii a h Ha), (unhexdigit_is_ascii b l Hb),
    (IH rest eq_refl).
Qed.

(** The digits decode exactly when [unhexlify] returns. *)
Lemma unhexlify_returns (s : string) (data : bytes) :
  Binascii.unhexlify s = Some data ↔ unhexlify s = Py.Return data.
Proof.
  unfold unhexlify. split.
  - intros H. by rewrite (unhexlify_only_ascii s data H), H.
  - destruct (only_ascii s); [| done].
    destruct (Binascii.unhexlify s); [| done]. by intros [= ->].
Qed.

Lemma secret_bytes (secret : Py.value) :
  check_sha256_hex_format secret = true →
  ∃ key, unhexlify_value secret = Py.Return key.
Proof.
  destruct secret as [| | | s]; try done. cbn [check_sha256_hex_format].
  intros [Hlen Hhex]%andb_true_iff.
  apply Nat.eqb_eq in Hlen.
  destruct (hex_chars_unhexlify s) as [key Hkey]; [by rewrite Hlen | done |].
  exists key. cbn. by apply unhexlify_returns.
Qed.

Lemma encrypt_checked (data : string) (secret : Py.value) (tx key : bytes) :
  (String.length data mod 2 =? 0)%nat = true →
  check_sha256_hex_format secret = true →
  Binascii.unhexlify data = Some tx →
  unhexlify_value secret = Py.Return key →
  encrypt {| Blob.data := data |} secret
  = ([KeyDerivation; CipherSetup; CipherEncrypt],
     Py.Return
       (Binascii.hexlify
          (ChaCha20Poly1305.encrypt (Sha256.sha256 key) zero_nonce tx []))).
Proof.
  intros Hlen Hsec Htx%unhexlify_returns Hkey.
  unfold encrypt, check_data_key_format, new_cipher.
  cbn [Blob.data]. rewrite Hlen, Hsec, Htx, Hkey.
  cbn [negb lift bind exec app]. rewrite length_sha256.
  reflexivity.
Qed.

Lemma decrypt_checked (data : string) (secret : Py.value)
    (encrypted key : bytes) :
  (String.length data mod 2 =? 0)%nat = true →
  check_sha256_hex_format secret = true →
  Binascii.unhexlify data = Some encrypted →
  unhexlify_value secret = Py.Return key →
  decrypt {| EncryptedBlob.data := data |} secret
  = ([KeyDerivation; CipherSetup; CipherDecrypt],
     Py.Return
       (Binascii.hexlify
          <$> ChaCha20Poly1305.decrypt (Sha256.sha256 key) zero_nonce
                encrypted [])).
Proof.
  intros Hlen Hsec Henc%unhexlify_returns Hkey.
  unfold decrypt, check_data_key_format, new_cipher.
  cbn [EncryptedBlob.data]. rewrite Hlen, Hsec, Henc, Hkey.
  cbn [negb lift bind exec app]. rewrite length_sha256.
  reflexivity.
Qed.

(** C3, as the code has it.  For a blob of even-length valid hex and a
    secret of 64 hex characters, [encrypt] returns a ciphertext, and
    [decrypt] of that ciphertext under the same secret returns [blob.data]
    with its hex digits in lower case: [blob.data] itself when it is
    written in lower case. *)
Theorem decrypt_encrypt_lower (blob : Blob.t) (secret : Py.value) :
  even_length_hex (Blob.data blob) = true →
  check_sha256_hex_format secret = true →
  ∃ encrypted,
    (encrypt blob secret).2 = Py.Return encrypted
    ∧ (decrypt {| EncryptedBlob.data := encrypted |} secret).2
      = Py.Return (Some (lower (Blob.data blob)))
    ∧ (lower (Blob.data blob) = Blob.data blob →
       (decrypt {| EncryptedBlob.data := encrypted |} secret).2
       = Py.Return (Some (Blob.data blob))).
Proof.
  destruct blob as [data]. cbn [Blob.data].
  intros [Hlen Hhex]%andb_true_iff Hsec.
  destruct (hex_chars_unhexlify data Hlen Hhex) as [tx Htx].
  destruct (secret_bytes secret Hsec) as [key Hkey].
  eexists. rewrite (encrypt_checked data secret tx key) by done.
  split; [reflexivity |].
  rewrite (decrypt_checked _ secret _ key
             (length_hexlify_even _) Hsec (unhexlify_hexlify _) Hkey).
  cbn [snd]. rewrite aead_decrypt_encrypt. cbn [fmap option_fmap option_map].
  rewrite (hexlify_unhexlify data tx Htx).
  split; [done | by intros ->].
Qed.

(** C4. When the data has odd length or the secret is not 64 hex
    characters, [check_data_key_format] raises a [ValueError], and [encrypt]
    and [decrypt] raise it having executed no key derivation and no cipher
    operation. *)
Theorem format_error_before_cipher (data : string) (secret : Py.value) :
  (String.length data mod 2)%nat ≠ 0%nat
  ∨ check_sha256_hex_format secret = false →
  ∃ msg,
    check_data_key_format data secret = Py.Raise (Py.ValueError msg)
    ∧ encrypt {| Blob.data := data |} secret
      = ([], Py.Raise (Py.ValueError msg))
    ∧ decrypt {| EncryptedBlob.data := data |} secret
      = ([], Py.Raise (Py.ValueError msg)).
Proof.
  intros Hbad. unfold encrypt, decrypt, check_data_key_format.
  cbn [Blob.data EncryptedBlob.data].
  destruct (Nat.eqb_spec (String.length data mod 2) 0) as [Heven | Hodd].
  - destruct Hbad as [Hodd | Hsec]; [done |].
    rewrite Hsec. by eexists.
  - by eexists.
Qed.

End EnvelopeFacts.

(** ** Cryptographer: the envelope at concrete inputs *)

Section EnvelopeExamples.
Import Cryptographer.

(** The vector of [test_encrypt] and [test_decrypt]. *)
Example encrypt_test_vector :
  encrypt
    {| Blob.data :=
         "6097cdf52309b1b2124efeed36bd34f46dc1c25ad23ac86f28380f746254f777" |}
    (Py.Str "b2e984a570f6f49bc38ace178e09147b0aa296cbb7c92eb01412f7e2d07b5659")
  = ([KeyDerivation; CipherSetup; CipherEncrypt],
     Py.Return
       "8f31028097a8bf12a92e088caab5cf3fcddf0d35ed2b72c24b12269373efcdea04f9d2a820adafe830c20ff132d89810"%string).
Proof. vm_compute. reflexivity. Qed.

Example decrypt_test_vector :
  decrypt
    {| EncryptedBlob.data :=
         "8f31028097a8bf12a92e088caab5cf3fcddf0d35ed2b72c24b12269373efcdea04f9d2a820adafe830c20ff132d89810" |}
    (Py.Str "b2e984a570f6f49bc38ace178e09147b0aa296cbb7c92eb01412f7e2d07b5659")
  = ([KeyDerivation; CipherSetup; CipherDecrypt],
     Py.Return
       (Some
          "6097cdf52309b1b2124efeed36bd34f46dc1c25ad23ac86f28380f746254f777"%string)).
Proof. vm_compute. reflexivity. Qed.

(** A ciphertext with a wrong tag: [None], no exception
    ([test_decrypt_invalid_tag]). *)
Example decrypt_invalid_tag :
  (decrypt
     {| EncryptedBlob.data :=
          "9f31028097a8bf12a92e088caab5cf3fcddf0d35ed2b72c24b12269373efcdea04f9d2a820adafe830c20ff132d89810" |}
     (Py.Str "b2e984a570f6f49bc38ace178e09147b0aa296cbb7c92eb01412f7e2d07b5659")).2
  = Py.Return None.
Proof. vm_compute. reflexivity. Qed.

Lemma decrypt_encrypt_lower_witness :
  let blob :=
    {| Blob.data :=
         "6097cdf52309b1b2124efeed36bd34f46dc1c25ad23ac86f28380f746254f777" |} in
  let secret :=
    Py.Str "b2e984a570f6f49bc38ace178e09147b0aa296cbb7c92eb01412f7e2d07b5659" in
  even_length_hex (Blob.data blob) = true
  ∧ check_sha256_hex_format secret = true
  ∧ ∃ encrypted,
      (encrypt blob secret).2 = Py.Return encrypted
      ∧ (decrypt {| EncryptedBlob.data := encrypted |} secret).2
        = Py.Return (Some (Blob.data blob)).
Proof.
  intros blob secret.
  assert (Hdata : even_length_hex (Blob.data blob) = true) by reflexivity.
  assert (Hsec : check_sha256_hex_format secret = true) by reflexivity.
  split; [exact Hdata |]. split; [exact Hsec |].
  destruct (decrypt_encrypt_lower blob secret Hdata Hsec)
    as (encrypted & Henc & _ & Hdec).
  exists encrypted. split; [exact Henc |]. apply Hdec. reflexivity.
Defined.

(** C3 as stated fails on upper-case hex: the blob [AB] comes back as
    [ab]. *)
Lemma decrypt_encrypt_upper_case :
  let blob := {| Blob.data := "AB" |} in
  let secret :=
    Py.Str "b2e984a570f6f49bc38ace178e09147b0aa296cbb7c92eb01412f7e2d07b5659" in
  even_length_hex (Blob.data blob) = true
  ∧ check_sha256_hex_format secret = true
  ∧ ∃ encrypted,
      (encrypt blob secret).2 = Py.Return encrypted
      ∧ (decrypt {| EncryptedBlob.data := encrypted |} secret).2
        = Py.Return (Some "ab"%string)
      ∧ (decrypt {| EncryptedBlob.data := encrypted |} secret).2
        ≠ Py.Return (Some (Blob.data blob)).
Proof.
  intros blob secret. split; [reflexivity |]. split; [reflexivity |].
  exists "44d0b0346d9d7a85718f6a2a3192963089"%string.
  assert (Hdec :
    (decrypt {| EncryptedBlob.data := "44d0b0346d9d7a85718f6a2a3192963089" |}
       secret).2 = Py.Return (Some "ab"%string))
    by (vm_compute; reflexivity).
  split; [vm_compute; reflexivity |]. split; [exact Hdec |].
  rewrite Hdec. discriminate.
Qed.

(** Data of three characters; a secret of two. *)
Lemma format_error_before_cipher_witness :
  (String.length "abc" mod 2)%nat ≠ 0%nat
  ∧ (∃ msg, encrypt {| Blob.data := "abc" |} (Py.Str "zz")
            = ([], Py.Raise (Py.ValueError msg)))
  ∧ (∃ msg, decrypt {| EncryptedBlob.data := "00" |} (Py.Str "zz")
            = ([], Py.Raise (Py.ValueError msg))).
Proof.
  assert (Hodd : (String.length "abc" mod 2)%nat ≠ 0%nat) by (cbn; lia).
  split; [exact Hodd |]. split.
  - destruct (format_error_before_cipher "abc" (Py.Str "zz") (or_introl Hodd))
      as (msg & _ & Henc & _).
    exists msg. exact Henc.
  - destruct (format_error_before_cipher "00" (Py.Str "zz")
                (or_intror eq_refl)) as (msg & _ & _ & Hdec).
    exists msg. exact Hdec.
Defined.

End EnvelopeExamples.

(** ** Cryptographer: signatures in the Lightning encoding *)

Section DigitFacts.

Variable base : N.
Hypothesis base_pos : (0 < base)%N.

Lemma of_digits_snoc (ds : list N) (d : N) :
  Bytes.of_digits base (ds ++ [d])
  = (Bytes.of_digits base ds * base + d)%N.
Proof. unfold Bytes.of_digits. by rewrite fold_left_app. Qed.

Lemma length_be_digits (k : nat) (n : N) :
  length (Bytes.be_digits base k n) = k.
Proof.
  revert n. induction k as [| k IH]; intros n; [done |].
  cbn [Bytes.be_digits]. rewrite length_app, IH. cbn [length].
  apply Nat.add_1_r.
Qed.

Lemma be_digits_bound (k : nat) (n : N) :
  Forall (fun d => (d < base)%N) (Bytes.be_digits base k n).
Proof.
  revert n. induction k as [| k IH]; intros n; [constructor |].
  cbn [Bytes.be_digits]. apply Forall_app. split; [apply IH |].
  constructor; [| constructor]. apply N.mod_upper_bound. lia.
Qed.

Lemma of_be_digits (k : nat) (n : N) :
  (n < base ^ N.of_nat k)%N →
  Bytes.of_digits base (Bytes.be_digits base k n) = n.
Proof.
  revert n. induction k as [| k IH]; intros n Hn.
  - cbn in *. lia.
  - cbn [Bytes.be_digits]. rewrite of_digits_snoc, IH.
    + rewrite N.mul_comm. symmetry. apply N.div_mod. lia.
    + apply N.Div0.div_lt_upper_bound.
      rewrite Nat2N.inj_succ, N.pow_succ_r' in Hn. lia.
Qed.

Lemma be_of_digits (ds : list N) :
  Forall (fun d => (d < base)%N) ds →
  Bytes.be_digits base (length ds) (Bytes.of_digits base ds) = ds.
Proof.
  induction ds as [| d ds IH] using rev_ind; intros Hds; [done |].
  apply Forall_app in Hds as [Hds Hd]. rewrite Forall_singleton in Hd.
  rewrite length_app, Nat.add_comm. cbn [length Nat.add Bytes.be_digits].
  rewrite of_digits_snoc.
  replace ((Bytes.of_digits base ds * base + d) / base)%N
    with (Bytes.of_digits base ds)
    by (apply (N.div_unique _ base _ d); lia).
  replace ((Bytes.of_digits base ds * base + d) mod base)%N with d
    by (apply (N.mod_unique _ base (Bytes.of_digits base ds) d); lia).
  by rewrite IH.
Qed.

Lemma of_digits_lt (ds : list N) :
  Forall (fun d => (d < base)%N) ds →
  (Bytes.of_digits base ds < base ^ N.of_nat (length ds))%N.
Proof.
  induction ds as [| d ds IH] using rev_ind; intros Hds; [cbn; lia |].
  apply Forall_app in Hds as [Hds Hd]. rewrite Forall_singleton in Hd.
  rewrite of_digits_snoc, length_app, Nat.add_comm.
  cbn [length Nat.add]. rewrite Nat2N.inj_succ, N.pow_succ_r'.
  specialize (IH Hds). nia.
Qed.

End DigitFacts.

Section SignatureFacts.
Import Cryptographer.

Lemma decode_encode_digit (d : N) :
  (d < 32)%N → ZBase32.decode_digit (ZBase32.encode_digit d) = Some d.
Proof.
  intros Hd. rewrite <- (N2Nat.id d).
  assert (Hk : (N.to_nat d < 32)%nat) by lia.
  clear Hd. revert Hk. generalize (N.to_nat d). intros k Hk.
  do 32 (destruct k as [| k]; [reflexivity |]). lia.
Qed.

Lemma decode_encode_digits (ds : list N) :
  Forall (fun d => (d < 32)%N) ds →
  ZBase32.decode_digits (ZBase32.encode_digit <$> ds) = Some ds.
Proof.
  induction 1 as [| d ds Hd _ IH]; [done |].
  cbn [fmap list_fmap ZBase32.decode_digits].
  by rewrite decode_encode_digit, IH.
Qed.

Lemma bytes_to_N_bound (bs : bytes) :
  Forall (fun d => (d < 256)%N) (Byte.to_N <$> bs).
Proof.
  apply Forall_fmap, Forall_forall. intros b _. cbn.
  pose proof (Byte.to_N_bounded b). lia.
Qed.

Lemma bytes_of_to_N (bs : bytes) :
  Bytes.byte_of_N <$> (Byte.to_N <$> bs) = bs.
Proof.
  induction bs as [| b bs IH]; [done |].
  cbn [fmap list_fmap] in *. by rewrite byte_of_N_to_N, IH.
Qed.

(** [decode_bytes] undoes [encode_bytes], whatever the number of bytes. *)
Lemma zbase32_decode_encode (bs : bytes) :
  ZBase32.decode_bytes (ZBase32.encode_bytes bs) = Py.Return bs.
Proof.
  unfold ZBase32.decode_bytes, ZBase32.encode_bytes.
  set (L := length bs).
  set (nchars := ((8 * L + 4) / 5)%nat).
  assert (Hdiv : (8 * L ≤ 5 * nchars ∧ 5 * nchars ≤ 8 * L + 4)%nat).
  { pose proof (Nat.div_mod_eq (8 * L + 4) 5).
    pose proof (Nat.mod_upper_bound (8 * L + 4) 5). subst nchars. lia. }
  set (fill := N.of_nat (5 * nchars - 8 * L)).
  set (v := Bytes.of_digits 256 (Byte.to_N <$> bs)).
  assert (H32 : (0 < 32)%N) by lia.
  assert (H256 : (0 < 256)%N) by lia.
  rewrite list_ascii_of_string_of_list_ascii.
  rewrite decode_encode_digits by (by apply be_digits_bound).
  rewrite length_be_digits.
  assert (Hbytes : (5 * nchars / 8)%nat = L).
  { symmetry. apply (Nat.div_unique _ 8 L (5 * nchars - 8 * L)); lia. }
  rewrite Hbytes. fold fill.
  assert (Hv : (v < 256 ^ N.of_nat L)%N).
  { subst v L. rewrite <- (length_fmap Byte.to_N bs).
    apply (of_digits_lt 256 H256), bytes_to_N_bound. }
  assert (Hx : (N.shiftl v fill < 32 ^ N.of_nat nchars)%N).
  { rewrite N.shiftl_mul_pow2.
    change 32%N with (2 ^ 5)%N. change 256%N with (2 ^ 8)%N in Hv.
    rewrite <- N.pow_mul_r in *.
    replace (5 * N.of_nat nchars)%N with (8 * N.of_nat L + fill)%N
      by (subst fill; lia).
    rewrite N.pow_add_r.
    apply N.mul_lt_mono_pos_r; [| done].
    apply N.neq_0_lt_0, N.pow_nonzero. lia. }
  rewrite (of_be_digits 32 H32) by done.
  rewrite N.shiftr_shiftl_l, N.sub_diag, N.shiftl_0_r by done.
  subst v. replace L with (length (Byte.to_N <$> bs))
    by (by rewrite length_fmap).
  rewrite (be_of_digits 256 H256) by apply bytes_to_N_bound.
  by rewrite bytes_of_to_N.
Qed.

Lemma recovery_id_cases (rid : byte) :
  (Byte.to_N rid ≤ 3)%N → rid = x00 ∨ rid = x01 ∨ rid = x02 ∨ rid = x03.
Proof.
  intros H. destruct rid; cbv [Byte.to_N] in H; try lia; tauto.
Qed.

(** [sigrec_decode] undoes [sigrec_encode] on a signature of 64 bytes
    followed by a recovery id from 0 to 3. *)
Lemma sigrec_decode_encode (rsig : bytes) (rid : byte) :
  length rsig = 64%nat → (Byte.to_N rid ≤ 3)%N →
  ∃ sigrec,
    sigrec_encode (rsig ++ [rid]) = Py.Return sigrec
    ∧ sigrec_decode sigrec = Py.Return (rsig ++ [rid]).
Proof.
  intros Hlen Hrid. unfold sigrec_encode.
  rewrite take_app_length' by done.
  rewrite lookup_app_r by lia. rewrite Hlen. cbn [lookup list_lookup Nat.sub].
  destruct (recovery_id_cases rid Hrid) as [-> | [-> | [-> | ->]]];
    eexists; (split; [reflexivity |]); reflexivity.
Qed.

(** Whatever comes out of the [try] block, [recover_pk] returns. *)
Lemma recover_pk_returns_after_decoding `{C : Coincurve}
    (message : bytes) (zb32_sig : string) (sigrec rsig_recid : bytes) :
  ZBase32.decode_bytes zb32_sig = Py.Return sigrec →
  sigrec_decode sigrec = Py.Return rsig_recid →
  ∃ rpk, recover_pk message zb32_sig = Py.Return rpk.
Proof.
  intros Hdec Hsig. unfold recover_pk. rewrite Hdec. cbn [Py.bind].
  rewrite Hsig. cbn [Py.bind].
  destruct (from_signature_and_message _ _ _); by eexists.
Qed.

(** C5. With a [coincurve] that meets the contract of recoverable
    signatures, for every message and private key [sign] returns a
    signature string, [recover_pk] of the message and that string returns a
    public key, and [verify_rpk] finds it on the point of the signer's public
    key. *)
Theorem recover_pk_of_sign `{C : Coincurve} (laws : CoincurveLaws C)
    (message : bytes) (sk : PrivateKey) :
  ∃ zb32_sig rpk,
    sign message sk = Py.Return (Some zb32_sig)
    ∧ recover_pk message zb32_sig = Py.Return (Some rpk)
    ∧ verify_rpk (public_key sk) rpk = true.
Proof.
  destruct (sign_recoverable_format sk (LN_MESSAGE_PREFIX ++ message) sha256d)
    as (rsig & rid & Hsig & Hlen & Hrid).
  destruct (recover_signed sk (LN_MESSAGE_PREFIX ++ message) sha256d)
    as (pk & Hrec & Hpoint).
  destruct (sigrec_decode_encode rsig rid Hlen Hrid) as (sigrec & Henc & Hdec).
  exists (ZBase32.encode_bytes sigrec), pk.
  unfold sign, recover_pk, verify_rpk.
  rewrite Hsig, Henc. cbn [Py.bind].
  rewrite zbase32_decode_encode. cbn [Py.bind]. rewrite Hdec. cbn [Py.bind].
  rewrite <- Hsig, Hrec.
  repeat split. by apply bool_decide_eq_true_2.
Qed.

(** C6 fails in the code: the decoding of the signature stands before the
    [try].  A signature string of 104 times [y] decodes to 65 zero bytes;
    [sigrec_decode] then calls [int_to_bytes(-31)], and the [OverflowError]
    reaches the caller.  The empty string ends in an [IndexError]. *)
Theorem recover_pk_raises_on_malformed_signature `{C : Coincurve}
    (message : bytes) :
  recover_pk message
    "yyyyyyyyyyyyyyyyyyyyyyyyyyyyyyyyyyyyyyyyyyyyyyyyyyyyyyyyyyyyyyyyyyyyyyyyyyyyyyyyyyyyyyyyyyyyyyyyyyyyyyyy"
  = Py.Raise Py.OverflowError
  ∧ recover_pk message "" = Py.Raise Py.IndexError.
Proof. split; reflexivity. Qed.

#[local] Instance byte_curve_laws : CoincurveLaws ByteCurve.curve.
Proof.
  split.
  - intros sk message hasher. exists (sk :: replicate 63 x00), x00.
    repeat split. cbn. lia.
  - intros sk message hasher. exists sk. by split.
Qed.

Lemma recover_pk_of_sign_witness :
  let sk : @PrivateKey ByteCurve.curve := "k"%byte in
  ∃ zb32_sig rpk,
    sign ["h"; "i"]%byte sk = Py.Return (Some zb32_sig)
    ∧ recover_pk ["h"; "i"]%byte zb32_sig = Py.Return (Some rpk)
    ∧ verify_rpk (public_key sk) rpk = true.
Proof.
  intros sk.
  exact (recover_pk_of_sign byte_curve_laws ["h"; "i"]%byte sk).
Defined.

End SignatureFacts.

(** * Further properties of the code *)

(** ** ChainMonitor: what reaches the queues *)

Section QueueFacts.
Import ChainMonitor.

Implicit Types (s : t) (h : tip) (W : Z) (ds : list detection).

Lemma locked_update_puts W (m : t) h :
  ∃ d, watcher_queue (locked_update W m h) = watcher_queue m ++ d
       ∧ responder_queue (locked_update W m h) = responder_queue m ++ d.
Proof.
  unfold locked_update, update_state.
  destruct (_ && _); cbn; [by exists [h] | exists []; by rewrite !app_nil_r].
Qed.

Lemma step_puts W (sys : system) (e : event) :
  ∃ d, watcher_queue (monitor (step W sys e))
       = watcher_queue (monitor sys) ++ d
       ∧ responder_queue (monitor (step W sys e))
         = responder_queue (monitor sys) ++ d.
Proof.
  assert (Hnone : ∀ m : t, ∃ d, watcher_queue m = watcher_queue m ++ d
                              ∧ responder_queue m = responder_queue m ++ d)
    by (intros m; exists []; by rewrite !app_nil_r).
  destruct sys as [m p z sock].
  destruct e as [| | | msg | current_tip |]; cbn; try apply Hnone.
  - destruct p; cbn; try apply Hnone. apply locked_update_puts.
  - destruct z as [| | msg | [| topic [| body msg]] | |]; cbn;
      try apply Hnone.
    + destruct sock; cbn; apply Hnone.
    + unfold detect. destruct (candidate _); [| apply Hnone].
      apply locked_update_puts.
Qed.

(** X1. Under every interleaving of the two loops with the events around
    them, the monitor only appends to the queues, and it appends the same
    hashes in the same order to both: queues that start equal stay equal. *)
Theorem queues_grow_in_lockstep W (sys : system) (evs : list event) :
  (∃ d, watcher_queue (monitor (exec W sys evs))
        = watcher_queue (monitor sys) ++ d
        ∧ responder_queue (monitor (exec W sys evs))
          = responder_queue (monitor sys) ++ d)
  ∧ (watcher_queue (monitor sys) = responder_queue (monitor sys) →
     watcher_queue (monitor (exec W sys evs))
     = responder_queue (monitor (exec W sys evs))).
Proof.
  assert (Hgrow : ∀ evs' sys',
    ∃ d, watcher_queue (monitor (exec W sys' evs'))
         = watcher_queue (monitor sys') ++ d
         ∧ responder_queue (monitor (exec W sys' evs'))
           = responder_queue (monitor sys') ++ d).
  { induction evs' as [| e evs' IH]; intros sys'.
    - exists []. by rewrite !app_nil_r.
    - destruct (step_puts W sys' e) as (d1 & Hw1 & Hr1).
      destruct (IH (step W sys' e)) as (d2 & Hw2 & Hr2).
      exists (d1 ++ d2). cbn [exec fold_left]. unfold exec in Hw2, Hr2.
      by rewrite Hw2, Hr2, Hw1, Hr1, !app_assoc. }
  split; [apply Hgrow |].
  intros Heq. destruct (Hgrow evs sys) as (d & -> & ->). by rewrite Heq.
Qed.

Lemma detect_accept W s d h :
  candidate d = Some h → (update_state s h W).1 = true →
  h ≠ best_tip s ∧ (h ∉ last_tips s)
  ∧ best_tip (detect W s d) = h
  ∧ ∃ j, (j ≤ 1)%nat
         ∧ last_tips (detect W s d) = drop j (remembered_tips s)
         ∧ (j = 1%nat ↔ Z.of_nat (length (remembered_tips s)) > W).
Proof.
  intros Hc Hacc. unfold detect, locked_update. rewrite Hc.
  unfold update_state in *. unfold remembered_tips.
  destruct (bool_decide (h ≠ best_tip s)) eqn:Hb; [| done].
  destruct (bool_decide (h ∉ last_tips s)) eqn:Hl; [| done].
  apply bool_decide_eq_true_1 in Hb, Hl. cbn [andb].
  split; [done |]. split; [done |]. cbn [notify_subscribers best_tip last_tips].
  split; [done |].
  destruct (Z.gtb_spec (Z.of_nat (length (last_tips s ++ [best_tip s]))) W).
  - exists 1%nat. split; [lia |]. split; [| split; [lia | done]].
    unfold pop0. by destruct (last_tips s ++ [best_tip s]).
  - exists 0%nat. split; [lia |]. split; [done |]. split; [done | lia].
Qed.

Lemma detect_reject W s d :
  (∀ h, candidate d = Some h → (update_state s h W).1 = false) →
  detect W s d = s.
Proof.
  intros Hrej. unfold detect, locked_update.
  destruct (candidate d) as [h |]; [| done].
  specialize (Hrej h eq_refl). unfold update_state in *.
  by destruct (_ && _).
Qed.

Lemma delivered_snoc W s ds d :
  delivered W s (ds ++ [d])
  = delivered W s ds
    ++ match candidate d with
       | Some h => if (update_state (run W s ds) h W).1 then [h] else []
       | None => []
       end.
Proof.
  rewrite delivered_app. cbn [delivered].
  destruct (candidate d) as [h |]; [| done].
  by destruct (update_state (run W s ds) h W).1.
Qed.

Lemma run_snoc W s ds d : run W s (ds ++ [d]) = detect W (run W s ds) d.
Proof. by rewrite run_app. Qed.

(** X2. In a serialized run the remembered tips are the most recent part of
    the history: the tips remembered at the start followed by the hashes
    delivered since, with only a front part dropped.  In particular, once
    something has been delivered, [best_tip] is the hash delivered last. *)
Theorem remembered_tips_are_recent_history W s ds :
  ∃ D dropped,
    watcher_queue (run W s ds) = watcher_queue s ++ D
    ∧ responder_queue (run W s ds) = responder_queue s ++ D
    ∧ remembered_tips s ++ D = dropped ++ remembered_tips (run W s ds)
    ∧ (D ≠ [] → last D = Some (best_tip (run W s ds))).
Proof.
  exists (delivered W s ds).
  destruct (run_queues W s ds) as [Hw Hr].
  enough (∃ dropped,
            remembered_tips s ++ delivered W s ds
            = dropped ++ remembered_tips (run W s ds)
            ∧ (delivered W s ds ≠ [] →
               last (delivered W s ds) = Some (best_tip (run W s ds))))
    as (dropped & ? & ?) by (by exists dropped).
  clear Hw Hr. induction ds as [| d ds IH] using rev_ind.
  - exists []. cbn. by rewrite app_nil_r.
  - destruct IH as (dropped & Hhist & Hlast).
    rewrite delivered_snoc, run_snoc.
    destruct (candidate d) as [h |] eqn:Hc;
      [destruct (update_state (run W s ds) h W).1 eqn:Hacc |].
    + destruct (detect_accept W _ d h Hc Hacc)
        as (_ & _ & Hbest & j & _ & Hl & _).
      exists (dropped ++ take j (remembered_tips (run W s ds))).
      split; [| by rewrite last_snoc, Hbest].
      unfold remembered_tips at 3. rewrite Hl, Hbest.
      rewrite !app_assoc. f_equal. rewrite Hhist, <- !app_assoc.
      by rewrite take_drop.
    + rewrite detect_reject, app_nil_r
        by (intros h' Hh'; rewrite Hc in Hh'; by injection Hh' as <-).
      by exists dropped.
    + rewrite detect_reject, app_nil_r by (intros h' Hh'; by rewrite Hc in Hh').
      by exists dropped.
Qed.

Lemma common_suffix {A} (a b x y : list A) :
  a ++ x = b ++ y → (length x ≤ length y)%nat → ∃ c, y = c ++ x.
Proof.
  intros Heq Hlen.
  assert (Hab : (length b ≤ length a)%nat).
  { apply (f_equal length) in Heq. rewrite !length_app in Heq. lia. }
  exists (drop (length b) a).
  rewrite <- (drop_app_length b y), <- Heq. by rewrite drop_app_le.
Qed.

Lemma tips_distinct_remembered s :
  tips_distinct s ↔ NoDup (remembered_tips s).
Proof.
  unfold tips_distinct, remembered_tips. rewrite NoDup_app.
  split.
  - intros [Hb Hn]. split; [done |]. split; [| apply NoDup_singleton].
    intros x Hx ->%list_elem_of_singleton. done.
  - intros (Hn & Hx & _). split; [| done].
    intros Hin. apply (Hx _ Hin). by apply list_elem_of_singleton.
Qed.

Lemma tips_distinct_detect W s d :
  tips_distinct s → tips_distinct (detect W s d).
Proof.
  intros Hs. unfold detect, locked_update.
  destruct (candidate d) as [h |]; [| done].
  pose proof (tips_distinct_update W s h Hs) as Hu.
  destruct (update_state s h W) as [[] s']; by cbn in *.
Qed.

(** The facts a run keeps about the delivered hashes [D]: the remembered
    tips are distinct, they end the history, and there are at least as many
    of them as the window and the deliveries allow. *)
Lemma run_history_invariant W s ds :
  tips_distinct s →
  tips_distinct (run W s ds)
  ∧ (∃ dropped,
       remembered_tips s ++ delivered W s ds
       = dropped ++ remembered_tips (run W s ds))
  ∧ Z.min (Z.of_nat (length (delivered W s ds))) (Z.max W 0)
    ≤ Z.of_nat (length (last_tips (run W s ds))).
Proof.
  intros Hs. induction ds as [| d ds IH] using rev_ind.
  - split; [done |]. split; [exists []; cbn; by rewrite app_nil_r |].
    cbn [delivered length]. lia.
  - destruct IH as (Hd & (dropped & Hhist) & Hlen).
    rewrite delivered_snoc, run_snoc.
    split; [by apply tips_distinct_detect |].
    destruct (candidate d) as [h |] eqn:Hc;
      [destruct (update_state (run W s ds) h W).1 eqn:Hacc |].
    + destruct (detect_accept W _ d h Hc Hacc)
        as (_ & _ & Hbest & j & Hj & Hl & Hjw).
      split.
      * exists (dropped ++ take j (remembered_tips (run W s ds))).
        unfold remembered_tips at 3. rewrite Hl, Hbest.
        rewrite !app_assoc. f_equal. rewrite Hhist, <- !app_assoc.
        by rewrite take_drop.
      * rewrite Hl, length_drop, length_app. cbn [length].
        unfold remembered_tips in *. rewrite length_app in *.
        cbn [length] in *.
        destruct (decide (j = 1%nat)) as [-> | Hne].
        -- assert (Z.of_nat (length (last_tips (run W s ds)) + 1) > W)
             by (by apply Hjw).
           lia.
        -- assert (j = 0%nat) by lia. subst j. lia.
    + rewrite detect_reject, app_nil_r
        by (intros h' Hh'; rewrite Hc in Hh'; by injection Hh' as <-).
      split; [by exists dropped | done].
    + rewrite detect_reject, app_nil_r by (intros h' Hh'; by rewrite Hc in Hh').
      split; [by exists dropped | done].
Qed.

Lemma delivered_windows_distinct W s ds :
  tips_distinct s →
  ∀ D1 D2 D3,
    delivered W s ds = D1 ++ D2 ++ D3 →
    Z.of_nat (length D2) ≤ Z.max W 0 + 2 → NoDup D2.
Proof.
  intros Hs. induction ds as [| d ds IH] using rev_ind;
    intros D1 D2 D3 Hsplit Hlen.
  - cbn in Hsplit. symmetry in Hsplit.
    apply app_eq_nil in Hsplit as [_ Hsplit].
    apply app_eq_nil in Hsplit as [-> _]. apply NoDup_nil_2.
  - rewrite delivered_snoc in Hsplit.
    destruct (candidate d) as [h |] eqn:Hc;
      [destruct (update_state (run W s ds) h W).1 eqn:Hacc |];
      [| rewrite app_nil_r in Hsplit; by apply (IH D1 D2 D3)
       | rewrite app_nil_r in Hsplit; by apply (IH D1 D2 D3)].
    destruct D3 as [| x D3 _] using rev_ind.
    + rewrite app_nil_r in Hsplit.
      destruct D2 as [| y D2 _] using rev_ind; [apply NoDup_nil_2 |].
      rewrite app_assoc in Hsplit.
      apply app_inj_tail in Hsplit as [Hold ->].
      assert (Hnd : NoDup D2).
      { apply (IH D1 D2 []); [by rewrite app_nil_r |].
        rewrite length_app in Hlen. lia. }
      apply NoDup_app. split; [done |]. split; [| apply NoDup_singleton].
      intros x Hx ->%list_elem_of_singleton.
      destruct (run_history_invariant W s ds Hs)
        as (_ & (dropped & Hhist) & Hmin).
      destruct (detect_accept W _ d y Hc Hacc) as (Hb & Hl & _).
      assert (Hsuf : ∃ c, remembered_tips (run W s ds) = c ++ D2).
      { apply (common_suffix (remembered_tips s ++ D1) dropped).
        - by rewrite <- Hhist, Hold, app_assoc.
        - unfold remembered_tips. rewrite length_app in *. cbn [length] in *.
          rewrite Hold, length_app in Hmin. lia. }
      destruct Hsuf as (c & Hc').
      assert (Hin : y ∈ remembered_tips (run W s ds))
        by (rewrite Hc'; apply elem_of_app; by right).
      unfold remembered_tips in Hin.
      apply elem_of_app in Hin as [Hin | Hin%list_elem_of_singleton]; done.
    + rewrite !app_assoc in Hsplit.
      apply app_inj_tail in Hsplit as [Hold _].
      apply (IH D1 D2 D3); [by rewrite Hold, !app_assoc | done].
Qed.

(** X3. From a monitor whose remembered tips are distinct, the hashes put
    on the queues by a serialized run have no repetition among any [W + 2]
    consecutive ones, [W] being the window size (taken as 0 when negative):
    a hash is notified again only after at least [W + 1] other notifications
    have come in between. *)
Theorem consecutive_notifications_distinct W s ds :
  tips_distinct s →
  ∃ D,
    watcher_queue (run W s ds) = watcher_queue s ++ D
    ∧ responder_queue (run W s ds) = responder_queue s ++ D
    ∧ ∀ D1 D2 D3,
        D = D1 ++ D2 ++ D3 →
        Z.of_nat (length D2) ≤ Z.max W 0 + 2 → NoDup D2.
Proof.
  intros Hs. exists (delivered W s ds).
  destruct (run_queues W s ds) as [Hw Hr].
  split; [done |]. split; [done |]. by apply delivered_windows_distinct.
Qed.

(** X4. The bound of X3 is reached: when the window is full, accepting one
    new tip drops the oldest remembered tip, and that tip is then accepted
    (and notified) again. *)
Theorem evicted_tip_is_accepted_again W s h oldest rest :
  tips_distinct s →
  last_tips s = oldest :: rest →
  W ≤ Z.of_nat (length (last_tips s)) →
  h ≠ best_tip s → h ∉ last_tips s →
  (update_state s h W).1 = true
  ∧ last_tips (update_state s h W).2 = rest ++ [best_tip s]
  ∧ (update_state (update_state s h W).2 oldest W).1 = true
  ∧ watcher_queue (run W s [Polled h; Polled oldest])
    = watcher_queue s ++ [h; oldest].
Proof.
  intros [Hbest Hnd] Hlast Hfull Hb Hl.
  assert (Hold : oldest ≠ best_tip s ∧ (oldest ∉ rest) ∧ oldest ≠ h).
  { rewrite Hlast in Hbest, Hnd, Hl.
    apply NoDup_cons in Hnd as [? _].
    apply not_elem_of_cons in Hbest as [? _], Hl as [? _]. done. }
  destruct Hold as (Ho1 & Ho2 & Ho3).
  assert (Hstate : update_state s h W
    = (true, {| best_tip := h; last_tips := rest ++ [best_tip s];
                terminate := terminate s; check_tip := check_tip s;
                watcher_queue := watcher_queue s;
                responder_queue := responder_queue s |})).
  { unfold update_state. rewrite !bool_decide_eq_true_2 by done.
    cbn [andb]. rewrite Hlast in *. cbn [app length] in *.
    destruct (Z.gtb_spec (Z.of_nat (S (length (rest ++ [best_tip s])))) W)
      as [_ | Hle]; [done |].
    rewrite length_app in Hle. cbn [length] in Hle. lia. }
  assert (Hagain : ∀ s', best_tip s' = h → last_tips s' = rest ++ [best_tip s] →
                         (update_state s' oldest W).1 = true).
  { intros s' Hb' Hl'. unfold update_state. rewrite Hb', Hl'.
    rewrite !bool_decide_eq_true_2; [done | | done].
    rewrite not_elem_of_app, list_elem_of_singleton. done. }
  rewrite Hstate. cbn [fst snd last_tips].
  split; [done |]. split; [done |]. split; [by apply Hagain |].
  cbn [run fold_left detect candidate]. unfold locked_update.
  rewrite Hstate.
  set (s1 := notify_subscribers _ h).
  pose proof (Hagain s1 eq_refl eq_refl) as Hacc.
  destruct (update_state s1 oldest W) as [acc s2] eqn:Hs2. cbn in Hacc. subst acc.
  unfold update_state in Hs2. destruct (_ && _); [| done].
  injection Hs2 as <-. cbn. by rewrite <- app_assoc.
Qed.

End QueueFacts.

(** ** ChainMonitor: the loops under every interleaving *)

Section LoopFacts.
Import ChainMonitor.

Variable W : Z.
Implicit Types (sys : system) (e : event) (evs : list event).

(** X5. Once both loops have been left, they stay left, and nothing that
    happens afterwards changes [best_tip], [last_tips] or the queues. *)
Theorem stopped_monitor_is_quiescent sys evs :
  stopped sys →
  stopped (exec W sys evs)
  ∧ best_tip (monitor (exec W sys evs)) = best_tip (monitor sys)
  ∧ last_tips (monitor (exec W sys evs)) = last_tips (monitor sys)
  ∧ queues (monitor (exec W sys evs)) = queues (monitor sys).
Proof.
  revert sys. induction evs as [| e evs IH]; intros sys Hst; [done |].
  assert (Hstep : stopped (step W sys e)
                  ∧ best_tip (monitor (step W sys e)) = best_tip (monitor sys)
                  ∧ last_tips (monitor (step W sys e))
                    = last_tips (monitor sys)
                  ∧ queues (monitor (step W sys e)) = queues (monitor sys)).
  { destruct sys as [m p z sock]. destruct Hst as [Hp Hz]. cbn in Hp, Hz.
    subst p. unfold stopped.
    destruct e as [| | | msg | current_tip |]; cbn; try done.
    destruct Hz as [-> | ->]; cbn; auto. }
  destruct Hstep as (Hst' & Hb & Hl & Hq).
  destruct (IH (step W sys e) Hst') as (? & Hb' & Hl' & Hq').
  cbn [exec fold_left]. unfold exec in *.
  by rewrite Hb', Hl', Hq'.
Qed.


Lemma step_keeps_tips sys e :
  tips_distinct (monitor sys) →
  Z.of_nat (length (last_tips (monitor sys))) ≤ W →
  tips_distinct (monitor (step W sys e))
  ∧ Z.of_nat (length (last_tips (monitor (step W sys e)))) ≤ W.
Proof.
  intros Hd Hl.
  assert (Hlock : ∀ m h, tips_distinct m →
            Z.of_nat (length (last_tips m)) ≤ W →
            tips_distinct (locked_update W m h)
            ∧ Z.of_nat (length (last_tips (locked_update W m h))) ≤ W).
  { intros m h Hm Hlm. unfold locked_update.
    pose proof (tips_distinct_update W m h Hm) as Hu.
    pose proof (update_state_length W m h Hlm) as Hlen.
    destruct (update_state m h W) as [[] m']; by cbn in *. }
  destruct sys as [m p z sock]. cbn in Hd, Hl.
  destruct e as [| | | msg | current_tip |]; cbn; try done.
  - destruct p; cbn; try done. by apply Hlock.
  - destruct z as [| | msg | [| topic [| body msg]] | |]; cbn; try done.
    + by destruct sock.
    + unfold detect. destruct (candidate _); [by apply Hlock | done].
Qed.

(** X7. From start-up ([monitor_chain] on a fresh monitor) and under every
    interleaving of the two loops, with a window size that is not negative:
    [last_tips] never holds more than [BLOCK_WINDOW_SIZE] entries, never
    holds [best_tip], and never holds a hash twice. *)
Theorem started_monitor_keeps_window wq rq first_tip evs :
  0 ≤ W →
  Z.of_nat
    (length (last_tips
       (monitor (exec W (monitor_chain (init wq rq) first_tip) evs)))) ≤ W
  ∧ tips_distinct
      (monitor (exec W (monitor_chain (init wq rq) first_tip) evs)).
Proof.
  intros HW.
  enough (∀ evs' sys,
            tips_distinct (monitor sys) →
            Z.of_nat (length (last_tips (monitor sys))) ≤ W →
            tips_distinct (monitor (exec W sys evs'))
            ∧ Z.of_nat (length (last_tips (monitor (exec W sys evs')))) ≤ W)
    as Hall.
  { destruct (Hall evs (monitor_chain (init wq rq) first_tip)); [| | done].
    - split; [apply not_elem_of_nil | apply NoDup_nil_2].
    - cbn. lia. }
  induction evs' as [| e evs' IH]; intros sys Hd Hl; [done |].
  destruct (step_keeps_tips sys e Hd Hl) as [Hd' Hl'].
  cbn [exec fold_left]. by apply IH.
Qed.

End LoopFacts.

Section TwoPathFacts.
Import ChainMonitor.

(** X8. A block seen by both paths back to back is notified once if it is
    not remembered yet and not at all if it is, and the monitor ends in the
    same state whichever path comes first. *)
Theorem same_block_on_both_paths W (s : t) (body : bytes) :
  let h := Some (Binascii.hexlify body) in
  let pushed := Pushed hashblock body in
  let polled := Polled h in
  run W s [pushed; polled] = run W s [polled; pushed]
  ∧ watcher_queue (run W s [pushed; polled])
    = watcher_queue s ++ (if bool_decide (recorded h s) then [] else [h])
  ∧ responder_queue (run W s [pushed; polled])
    = responder_queue s ++ (if bool_decide (recorded h s) then [] else [h]).
Proof.
  intros h pushed polled.
  assert (Hsame : ∀ s', detect W s' pushed = detect W s' polled).
  { intros s'. unfold detect, pushed, polled. cbn [candidate].
    by rewrite bool_decide_eq_true_2. }
  assert (Hrun : run W s [pushed; polled] = detect W (detect W s polled) polled).
  { cbn [run fold_left]. by rewrite Hsame. }
  split; [cbn [run fold_left]; by rewrite !Hsame |].
  rewrite Hrun. unfold detect. cbn [candidate polled].
  assert (Hseen : ∀ s', recorded h s' → locked_update W s' h = s').
  { intros s' Hrec. unfold locked_update.
    by rewrite (update_state_seen W s' h Hrec). }
  destruct (decide (recorded h s)) as [Hrec | Hnew].
  - rewrite bool_decide_eq_true_2 by done.
    rewrite !(Hseen s Hrec). by rewrite !app_nil_r.
  - rewrite bool_decide_eq_false_2 by done.
    assert (Hfirst : recorded h (locked_update W s h)
              ∧ watcher_queue (locked_update W s h) = watcher_queue s ++ [h]
              ∧ responder_queue (locked_update W s h)
                = responder_queue s ++ [h]).
    { unfold locked_update, update_state, recorded in *.
      rewrite !bool_decide_eq_true_2 by (intros ?; apply Hnew; auto).
      cbn. auto. }
    destruct Hfirst as (Hrec1 & Hw & Hr).
    by rewrite (Hseen _ Hrec1).
Qed.

End TwoPathFacts.

(** ** ChainMonitor: the further statements at concrete monitors *)

Section MoreChainMonitorExamples.
Import ChainMonitor.

Lemma consecutive_notifications_distinct_witness :
  let s := monitor (monitor_chain (init [] []) (Some "b0")) in
  tips_distinct s
  ∧ ∃ D, watcher_queue
           (run 1 s [Polled (Some "b1"); Polled (Some "b2");
                     Polled (Some "b1"); Polled (Some "b0")])
         = watcher_queue s ++ D
         ∧ ∀ D1 D2 D3, D = D1 ++ D2 ++ D3 →
             Z.of_nat (length D2) ≤ Z.max 1 0 + 2 → NoDup D2.
Proof.
  intros s.
  assert (Hs : tips_distinct s)
    by (split; [apply not_elem_of_nil | apply NoDup_nil_2]).
  split; [exact Hs |].
  destruct (consecutive_notifications_distinct 1 s
              [Polled (Some "b1"); Polled (Some "b2");
               Polled (Some "b1"); Polled (Some "b0")] Hs)
    as (D & Hw & _ & Hwin).
  exists D. split; [exact Hw | exact Hwin].
Defined.

Lemma evicted_tip_is_accepted_again_witness :
  let s := {| best_tip := Some "b2"; last_tips := [Some "b0"; Some "b1"];
              terminate := false; check_tip := false;
              watcher_queue := []; responder_queue := [] |} in
  tips_distinct s
  ∧ watcher_queue (run 2 s [Polled (Some "b3"); Polled (Some "b0")])
    = [Some "b3"; Some "b0"].
Proof.
  intros s.
  assert (Hs : tips_distinct s).
  { split.
    - cbn. rewrite !not_elem_of_cons. repeat split; try congruence.
      apply not_elem_of_nil.
    - cbn. apply NoDup_cons_2;
        [rewrite not_elem_of_cons; split; [congruence | apply not_elem_of_nil]
        | apply NoDup_singleton]. }
  split; [exact Hs |].
  assert (Hb : Some "b3" ≠ best_tip s) by (cbn; congruence).
  assert (Hl : Some "b3" ∉ last_tips s).
  { cbn. rewrite !not_elem_of_cons. repeat split; try congruence.
    apply not_elem_of_nil. }
  assert (Hfull : 2 ≤ Z.of_nat (length (last_tips s))) by (cbn; lia).
  exact (proj2 (proj2 (proj2
           (evicted_tip_is_accepted_again 2 s (Some "b3") (Some "b0")
              [Some "b1"] Hs eq_refl Hfull Hb Hl)))).
Defined.

Lemma stopped_monitor_is_quiescent_witness :
  let sys := {| monitor := set_terminate (init [] []); polling := PDone;
                zmq := ZDone; socket := [] |} in
  stopped sys
  ∧ queues (monitor (exec 6 sys [Arrive []; ZmqStep; Elapse;
                                 PollStep (Some "b1")]))
    = queues (monitor sys).
Proof.
  intros sys.
  assert (Hst : stopped sys) by (split; [reflexivity | left; reflexivity]).
  split; [exact Hst |].
  exact (proj2 (proj2 (proj2
           (stopped_monitor_is_quiescent 6 sys
              [Arrive []; ZmqStep; Elapse; PollStep (Some "b1")] Hst)))).
Defined.


Lemma started_monitor_keeps_window_witness :
  0 ≤ 1
  ∧ Z.of_nat
      (length (last_tips
         (monitor (exec 1 (monitor_chain (init [] []) (Some "b0"))
                     [PollStep None; Elapse; PollStep None;
                      PollStep (Some "b1"); PollStep None; Elapse;
                      PollStep None; PollStep (Some "b2")])))) ≤ 1.
Proof.
  assert (HW : 0 ≤ 1) by lia.
  split; [exact HW |].
  exact (proj1 (started_monitor_keeps_window 1 [] [] (Some "b0")
                  [PollStep None; Elapse; PollStep None;
                   PollStep (Some "b1"); PollStep None; Elapse;
                   PollStep None; PollStep (Some "b2")] HW)).
Defined.

End MoreChainMonitorExamples.

(** ** Appointment: dictionaries in and out *)

Section MoreAppointmentFacts.
Import Appointment.

(** X9. An appointment whose five fields are not [None] is rebuilt by
    [from_dict] from its own [to_dict]; and whenever [from_dict] succeeds,
    [to_dict] of the result lists the five values of the input under their
    keys, in the order of [to_dict]. *)
Theorem from_dict_to_dict_round_trip (a : t) :
  locator a ≠ Py.None_ → start_time a ≠ Py.None_ → end_time a ≠ Py.None_ →
  to_self_delay a ≠ Py.None_ → data (encrypted_blob a) ≠ Py.None_ →
  from_dict (list_to_map (to_dict a)) = Py.Return a
  ∧ ∀ (d : gmap string Py.value) b,
      from_dict d = Py.Return b →
      to_dict b
      = [("locator", Py.get d "locator");
         ("start_time", Py.get d "start_time");
         ("end_time", Py.get d "end_time");
         ("to_self_delay", Py.get d "to_self_delay");
         ("encrypted_blob", Py.get d "encrypted_blob")].
Proof.
  intros H1 H2 H3 H4 H5. split.
  - destruct a as [l s e dl [b]]. cbn in *.
    unfold from_dict, Py.get, to_dict. cbn [list_to_map foldr fst snd
      locator start_time end_time to_self_delay encrypted_blob data].
    simplify_map_eq. cbn [default].
    destruct l, s, e, dl, b; done.
  - intros d b Hok.
    destruct (from_dict_spec d) as [[_ Heq] | [_ Heq]];
      rewrite Heq in Hok; [| done].
    by injection Hok as <-.
Qed.

Lemma get_insert_other (d : gmap string Py.value) k v key :
  k ≠ key → Py.get (<[k := v]> d) key = Py.get d key.
Proof. intros Hne. unfold Py.get. by rewrite lookup_insert_ne. Qed.

Lemma get_delete_other (d : gmap string Py.value) k key :
  k ≠ key → Py.get (delete k d) key = Py.get d key.
Proof. intros Hne. unfold Py.get. by rewrite lookup_delete_ne. Qed.

(** X10. [from_dict] reads the five keys and nothing else: adding, changing
    or removing any other key of the dictionary does not change its
    outcome. *)
Theorem from_dict_ignores_other_keys (d : gmap string Py.value) k v :
  k ∉ required_keys →
  from_dict (<[k := v]> d) = from_dict d
  ∧ from_dict (delete k d) = from_dict d.
Proof.
  unfold required_keys. rewrite !not_elem_of_cons.
  intros (K1 & K2 & K3 & K4 & K5 & _).
  unfold from_dict.
  by rewrite !get_insert_other, !get_delete_other.
Qed.

Lemma all_printable_app (s1 s2 : string) :
  all_printable (s1 ++ s2) = all_printable s1 && all_printable s2.
Proof.
  induction s1 as [| c s1 IH]; [done |].
  change (all_printable (String c (s1 ++ s2))
          = all_printable (String c s1) && all_printable s2).
  cbn [all_printable]. by rewrite IH, andb_assoc.
Qed.

Lemma escape_char_printable (c : ascii) :
  all_printable (Json.escape_char c) = true.
Proof. destruct c as [[] [] [] [] [] [] [] []]; reflexivity. Qed.

Lemma dump_str_printable (s : string) :
  all_printable (Json.dump_str s) = true.
Proof.
  unfold Json.dump_str, Json.quoted. cbn [all_printable].
  rewrite all_printable_app.
  assert (all_printable (Json.escape s) = true) as ->; [| done].
  induction s as [| c s IH]; [done |].
  cbn [Json.escape]. by rewrite all_printable_app, escape_char_printable.
Qed.

Lemma string_of_uint_printable (u : Decimal.uint) :
  all_printable (DecimalString.NilEmpty.string_of_uint u) = true.
Proof. induction u; cbn; done. Qed.

Lemma dump_int_printable (n : Z) : all_printable (Json.dump_int n) = true.
Proof.
  unfold Json.dump_int, DecimalString.NilZero.string_of_int,
    DecimalString.NilZero.string_of_uint.
  destruct (Z.to_int n) as [u | u];
    (destruct u; [reflexivity | cbn [all_printable printable];
                  try apply (string_of_uint_printable (_ u)) ..]).
Qed.

Lemma dump_value_printable (v : Py.value) :
  all_printable (Json.dump_value v) = true.
Proof.
  destruct v as [| [] | n | s]; try reflexivity.
  - apply dump_int_printable.
  - apply dump_str_printable.
Qed.

Lemma dump_item_printable kv : all_printable (Json.dump_item kv) = true.
Proof.
  unfold Json.dump_item.
  by rewrite !all_printable_app, dump_str_printable, dump_value_printable.
Qed.

(** X11. The output of [to_json] consists of printable ASCII characters
    only, whatever the field values hold: control characters, quotes,
    backslashes and characters above the tilde come out escaped. *)
Theorem to_json_is_printable_ascii (self : t) (triggered : bool) :
  all_printable (to_json self triggered) = true.
Proof.
  unfold to_json, Json.dumps.
  rewrite (sorted_to_json_dict self triggered).
  cbn [fmap list_fmap String.concat].
  cbn [all_printable]. rewrite !all_printable_app, !dump_item_printable.
  reflexivity.
Qed.

End MoreAppointmentFacts.

(** ** Cryptographer: more on the encrypted envelope *)

Section MoreEnvelopeFacts.
Import Cryptographer.

Lemma length_hexlify (data : bytes) :
  String.length (Binascii.hexlify data) = (2 * length data)%nat.
Proof.
  induction data as [| b data IH]; [done |].
  cbn [Binascii.hexlify String.length length]. rewrite IH. lia.
Qed.

Lemma length_unhexlify (s : string) (data : bytes) :
  Binascii.unhexlify s = Some data →
  String.length s = (2 * length data)%nat.
Proof.
  revert data. induction s as [| c | a b s IH] using string_pair_ind;
    intros data H; cbn [Binascii.unhexlify] in H.
  - by injection H as <-.
  - done.
  - destruct (Binascii.unhexdigit a); [| done].
    destruct (Binascii.unhexdigit b); [| done].
    destruct (Binascii.unhexlify s) as [rest |]; [| done].
    injection H as <-. cbn [String.length length].
    rewrite (IH rest eq_refl). lia.
Qed.

Lemma unhexlify_hex_chars (s : string) (data : bytes) :
  Binascii.unhexlify s = Some data →
  forallb is_hex_char (list_ascii_of_string s) = true.
Proof.
  revert data. induction s as [| c | a b s IH] using string_pair_ind;
    intros data H; cbn [Binascii.unhexlify] in H; [done | done |].
  cbn [list_ascii_of_string forallb]. unfold is_hex_char at 1 2.
  destruct (Binascii.unhexdigit a); [| done].
  destruct (Binascii.unhexdigit b); [| done].
  destruct (Binascii.unhexlify s) as [rest |]; [| done].
  by rewrite (IH rest eq_refl).
Qed.

Lemma lower_char_idem (c : ascii) : lower_char (lower_char c) = lower_char c.
Proof. destruct c as [[] [] [] [] [] [] [] []]; reflexivity. Qed.

Lemma lower_idem (s : string) : lower (lower s) = lower s.
Proof.
  induction s as [| c s IH]; [done |].
  cbn [lower]. by rewrite lower_char_idem, IH.
Qed.

Lemma length_lower (s : string) : String.length (lower s) = String.length s.
Proof. induction s as [| c s IH]; [done |]. cbn. by rewrite IH. Qed.

Lemma unhexdigit_lower_char (c : ascii) :
  Binascii.unhexdigit (lower_char c) = Binascii.unhexdigit c.
Proof. destruct c as [[] [] [] [] [] [] [] []]; reflexivity. Qed.

Lemma unhexlify_lower (s : string) :
  Binascii.unhexlify (lower s) = Binascii.unhexlify s.
Proof.
  induction s as [| c | a b s IH] using string_pair_ind; [done | done |].
  cbn [lower Binascii.unhexlify].
  by rewrite !unhexdigit_lower_char, IH.
Qed.

Lemma hex_chars_lower (s : string) :
  forallb is_hex_char (list_ascii_of_string (lower s))
  = forallb is_hex_char (list_ascii_of_string s).
Proof.
  induction s as [| c s IH]; [done |].
  cbn [lower list_ascii_of_string forallb]. unfold is_hex_char at 1 3.
  by rewrite unhexdigit_lower_char, IH.
Qed.

Lemma is_ascii_lower_char (c : ascii) :
  is_ascii_char (lower_char c) = is_ascii_char c.
Proof. destruct c as [[] [] [] [] [] [] [] []]; reflexivity. Qed.

Lemma only_ascii_lower (s : string) : only_ascii (lower s) = only_ascii s.
Proof.
  unfold only_ascii. induction s as [| c s IH]; [done |].
  cbn [lower list_ascii_of_string forallb].
  by rewrite is_ascii_lower_char, IH.
Qed.

Lemma lower_hexlify (data : bytes) :
  lower (Binascii.hexlify data) = Binascii.hexlify data.
Proof.
  symmetry. apply hexlify_unhexlify, unhexlify_hexlify.
Qed.

Lemma length_chacha20_encrypt key counter nonce (data : bytes) :
  length (ChaCha20.encrypt key counter nonce data) = length data.
Proof.
  unfold ChaCha20.encrypt.
  by destruct (xor_blocks_involutive (length data) key counter nonce data
                 (le_n _)).
Qed.

Lemma length_aead_encrypt key nonce data aad :
  length (ChaCha20Poly1305.encrypt key nonce data aad)
  = (length data + 16)%nat.
Proof.
  unfold ChaCha20Poly1305.encrypt.
  by rewrite length_app, length_chacha20_encrypt, length_tag.
Qed.

(** What authenticated decryption accepts is what encryption of its result
    produces. *)
Lemma aead_decrypt_inv key nonce data aad plain :
  ChaCha20Poly1305.decrypt key nonce data aad = Some plain →
  ChaCha20Poly1305.encrypt key nonce plain aad = data.
Proof.
  unfold ChaCha20Poly1305.decrypt, ChaCha20Poly1305.encrypt.
  destruct (length data <? 16)%nat; [done |].
  case_bool_decide as Htag; [| done]. intros [= <-].
  rewrite chacha20_encrypt_involutive, <- Htag. apply take_drop.
Qed.

Lemma even_length_hex_unhexlify (s : string) :
  even_length_hex s = true ↔ ∃ data, Binascii.unhexlify s = Some data.
Proof.
  unfold even_length_hex. split.
  - intros [Hlen Hhex]%andb_true_iff. by apply hex_chars_unhexlify.
  - intros [data Hdata]. apply andb_true_iff. split.
    + rewrite (length_unhexlify s data Hdata).
      by rewrite Nat.mul_comm, Nat.Div0.mod_mul.
    + by apply (unhexlify_hex_chars s data).
Qed.

(** X12. On a blob of even-length hex and a secret of 64 hex characters,
    [encrypt] derives the key, sets up the cipher and encrypts, in this
    order, and returns a string that is 32 characters (the 16 bytes of the
    tag) longer than [blob.data], is written in lower-case hex of even
    length, and so passes the format check of [decrypt]. *)
Theorem encrypt_output_shape (blob : Blob.t) (secret : Py.value) :
  even_length_hex (Blob.data blob) = true →
  check_sha256_hex_format secret = true →
  ∃ encrypted,
    encrypt blob secret
    = ([KeyDerivation; CipherSetup; CipherEncrypt], Py.Return encrypted)
    ∧ String.length encrypted = (String.length (Blob.data blob) + 32)%nat
    ∧ lower encrypted = encrypted
    ∧ even_length_hex encrypted = true.
Proof.
  destruct blob as [data]. cbn [Blob.data].
  intros Heven Hsec.
  pose proof Heven as [Hlen Hhex]%andb_true_iff.
  destruct (hex_chars_unhexlify data Hlen Hhex) as [tx Htx].
  destruct (secret_bytes secret Hsec) as [key Hkey].
  eexists. split; [by apply (encrypt_checked data secret tx key) |].
  split; [| split].
  - rewrite length_hexlify, length_aead_encrypt,
      (length_unhexlify data tx Htx). lia.
  - apply lower_hexlify.
  - apply even_length_hex_unhexlify. eexists. apply unhexlify_hexlify.
Qed.

(** X13. [encrypt] and [decrypt] do not depend on the case of the hex
    digits of the data and of the secret: lower-casing either changes
    neither the outcome nor the operations executed, errors included. *)
Theorem envelope_ignores_hex_case (data secret : string) :
  encrypt {| Blob.data := lower data |} (Py.Str (lower secret))
  = encrypt {| Blob.data := data |} (Py.Str secret)
  ∧ decrypt {| EncryptedBlob.data := lower data |} (Py.Str (lower secret))
    = decrypt {| EncryptedBlob.data := data |} (Py.Str secret).
Proof.
  unfold encrypt, decrypt, check_data_key_format, check_sha256_hex_format,
    unhexlify_value, unhexlify.
  cbn [Blob.data EncryptedBlob.data].
  by rewrite !length_lower, !hex_chars_lower, !only_ascii_lower,
    !unhexlify_lower.
Qed.

(** X14. On well-formed input [decrypt] never raises: it returns a string or
    [None], having derived the key, set up the cipher and tried to decrypt;
    data of fewer than 32 hex characters (less than a tag) gives [None]; and
    a returned string is hex of even length, written in lower case, and 32
    characters shorter than the data. *)
Theorem decrypt_returns_on_well_formed_input
    (encrypted_blob : EncryptedBlob.t) (secret : Py.value) :
  even_length_hex (EncryptedBlob.data encrypted_blob) = true →
  check_sha256_hex_format secret = true →
  ∃ blob,
    decrypt encrypted_blob secret
    = ([KeyDerivation; CipherSetup; CipherDecrypt], Py.Return blob)
    ∧ ((String.length (EncryptedBlob.data encrypted_blob) < 32)%nat →
       blob = None)
    ∧ ∀ plain, blob = Some plain →
        even_length_hex plain = true
        ∧ lower plain = plain
        ∧ (String.length plain + 32)%nat
          = String.length (EncryptedBlob.data encrypted_blob).
Proof.
  destruct encrypted_blob as [data]. cbn [EncryptedBlob.data].
  intros Heven Hsec.
  pose proof Heven as [Hlen Hhex]%andb_true_iff.
  destruct (hex_chars_unhexlify data Hlen Hhex) as [enc Henc].
  destruct (secret_bytes secret Hsec) as [key Hkey].
  eexists. split; [by apply (decrypt_checked data secret enc key) |].
  pose proof (length_unhexlify data enc Henc) as Hl.
  split.
  - intros Hshort. unfold ChaCha20Poly1305.decrypt.
    destruct (Nat.ltb_spec (length enc) 16); [done | lia].
  - intros plain Hplain.
    destruct (ChaCha20Poly1305.decrypt _ _ enc []) as [p |] eqn:Hdec;
      [| done].
    cbn in Hplain. injection Hplain as <-.
    apply aead_decrypt_inv in Hdec.
    apply (f_equal length) in Hdec. rewrite length_aead_encrypt in Hdec.
    split; [| split].
    + apply even_length_hex_unhexlify. eexists. apply unhexlify_hexlify.
    + apply lower_hexlify.
    + rewrite length_hexlify. lia.
Qed.

(** X15. What [decrypt] hands back encrypts to the ciphertext it came from:
    when [decrypt] returns a string for a secret, [encrypt] of that string
    under the same secret returns the data of the encrypted blob, in lower
    case. *)
Theorem encrypt_of_decrypted (encrypted_blob : EncryptedBlob.t)
    (secret : Py.value) (plain : string) :
  (decrypt encrypted_blob secret).2 = Py.Return (Some plain) →
  (encrypt {| Blob.data := plain |} secret).2
  = Py.Return (lower (EncryptedBlob.data encrypted_blob)).
Proof.
  destruct encrypted_blob as [data]. cbn [EncryptedBlob.data].
  intros Hdec.
  assert (Hcheck : (String.length data mod 2 =? 0)%nat = true
                   ∧ check_sha256_hex_format secret = true).
  { unfold decrypt, check_data_key_format in Hdec.
    cbn [EncryptedBlob.data] in Hdec.
    destruct (String.length data mod 2 =? 0)%nat; [| done].
    by destruct (check_sha256_hex_format secret). }
  destruct Hcheck as [Hlen Hsec].
  destruct (secret_bytes secret Hsec) as [key Hkey].
  assert (Henc : ∃ enc, Binascii.unhexlify data = Some enc).
  { unfold decrypt, check_data_key_format, new_cipher in Hdec.
    cbn [EncryptedBlob.data] in Hdec. rewrite Hlen, Hsec, Hkey in Hdec.
    cbn [negb lift bind exec app] in Hdec. rewrite length_sha256 in Hdec.
    cbn [Nat.eqb bind exec app] in Hdec.
    destruct (unhexlify data) as [enc | e] eqn:Hdata; [| done].
    exists enc. by apply unhexlify_returns. }
  destruct Henc as [enc Henc].
  rewrite (decrypt_checked data secret enc key Hlen Hsec Henc Hkey) in Hdec.
  cbn [snd] in Hdec.
  destruct (ChaCha20Poly1305.decrypt _ _ enc []) as [p |] eqn:Haead;
    [| done].
  cbn in Hdec. injection Hdec as <-.
  rewrite (encrypt_checked _ secret p key
             (length_hexlify_even p) Hsec (unhexlify_hexlify p) Hkey).
  cbn [snd]. rewrite (aead_decrypt_inv _ _ _ _ _ Haead).
  by rewrite (hexlify_unhexlify data enc Henc).
Qed.

(** X16. The format check looks at the length of the data only.  For data of
    even length that holds a character which is no hex digit, and a secret
    of 64 hex characters, the check returns [True] and both calls raise the
    exception of [unhexlify]: [binascii.Error] when the data is ASCII, the
    plain [ValueError] of the conversion to ASCII when it is not.  [encrypt]
    raises it before any operation on key or cipher, [decrypt] only after it
    has derived the key and set up the cipher. *)
Theorem non_hex_data_raises_in_unhexlify (data : string)
    (secret : Py.value) :
  (String.length data mod 2 =? 0)%nat = true →
  forallb is_hex_char (list_ascii_of_string data) = false →
  check_sha256_hex_format secret = true →
  ∃ e,
    e = (if only_ascii data then Py.BinasciiError
         else Py.ValueError
                "string argument should contain only ASCII characters")
    ∧ check_data_key_format data secret = Py.Return true
    ∧ encrypt {| Blob.data := data |} secret = ([], Py.Raise e)
    ∧ decrypt {| EncryptedBlob.data := data |} secret
      = ([KeyDerivation; CipherSetup], Py.Raise e).
Proof.
  intros Hlen Hhex Hsec.
  destruct (secret_bytes secret Hsec) as [key Hkey].
  assert (Hnone : Binascii.unhexlify data = None).
  { destruct (Binascii.unhexlify data) as [bs |] eqn:Hd; [| done].
    by rewrite (unhexlify_hex_chars data bs Hd) in Hhex. }
  eexists. split; [reflexivity |].
  unfold encrypt, decrypt, check_data_key_format, unhexlify, new_cipher.
  cbn [Blob.data EncryptedBlob.data]. rewrite Hlen, Hsec, Hnone, Hkey.
  cbn [negb lift bind exec app]. rewrite length_sha256.
  destruct (only_ascii data); repeat split.
Qed.

End MoreEnvelopeFacts.

(** ** Cryptographer: the fixed nonce *)

Section NonceFacts.
Import Cryptographer.

Lemma xor_byte_cancel (a b k : byte) :
  ChaCha20.xor_byte (ChaCha20.xor_byte a k) (ChaCha20.xor_byte b k)
  = ChaCha20.xor_byte a b.
Proof.
  apply to_N_inj. unfold ChaCha20.xor_byte.
  rewrite !to_N_byte_of_N. change 256%N with (2 ^ 8)%N.
  rewrite <- !N_lxor_mod, N.Div0.mod_mod. f_equal.
  rewrite N.lxor_assoc, (N.lxor_comm (Byte.to_N k)), N.lxor_assoc.
  by rewrite N.lxor_nilpotent, N.lxor_0_r.
Qed.

Lemma xor_bytes_cancel (a b ks : bytes) :
  length a = length b →
  ChaCha20.xor_bytes (ChaCha20.xor_bytes a ks) (ChaCha20.xor_bytes b ks)
  = ChaCha20.xor_bytes a b.
Proof.
  revert b ks. induction a as [| x a IH]; intros [| y b] ks Hlen;
    cbn in *; try done.
  injection Hlen as Hlen. by rewrite xor_byte_cancel, IH.
Qed.

Lemma xor_bytes_app (a1 a2 b1 b2 : bytes) :
  length a1 = length b1 →
  ChaCha20.xor_bytes (a1 ++ a2) (b1 ++ b2)
  = ChaCha20.xor_bytes a1 b1 ++ ChaCha20.xor_bytes a2 b2.
Proof.
  revert b1. induction a1 as [| x a1 IH]; intros [| y b1] Hlen;
    cbn in *; try done.
  injection Hlen as Hlen. by rewrite IH.
Qed.

Lemma xor_blocks_cancel fuel key counter nonce (a b : bytes) :
  length a = length b → (length a ≤ fuel)%nat →
  ChaCha20.xor_bytes (ChaCha20.xor_blocks fuel key counter nonce a)
    (ChaCha20.xor_blocks fuel key counter nonce b)
  = ChaCha20.xor_bytes a b.
Proof.
  revert counter a b.
  induction fuel as [| fuel IH]; intros counter a b Hlen Hfuel.
  - destruct a, b; cbn in *; done || lia.
  - destruct a as [| x a], b as [| y b]; try done.
    rewrite !xor_blocks_cons.
    rewrite xor_bytes_app
      by (rewrite !length_xor_bytes, !length_take; lia).
    rewrite xor_bytes_cancel by (rewrite !length_take; lia).
    rewrite IH by (rewrite !length_drop; cbn [length] in *; lia).
    rewrite <- xor_bytes_app by (rewrite !length_take; lia).
    by rewrite !take_drop.
Qed.

(** X17. Key and nonce are fixed by the secret alone, so two blobs of the
    same length encrypted under one secret leak the xor of their contents:
    the xor of the two ciphertexts, the tags left aside, is the xor of the
    two plaintexts. *)
Theorem same_secret_leaks_xor (blob1 blob2 : Blob.t) (secret : Py.value) :
  even_length_hex (Blob.data blob1) = true →
  even_length_hex (Blob.data blob2) = true →
  String.length (Blob.data blob1) = String.length (Blob.data blob2) →
  check_sha256_hex_format secret = true →
  ∃ tx1 tx2 ct1 ct2,
    Binascii.unhexlify (Blob.data blob1) = Some tx1
    ∧ Binascii.unhexlify (Blob.data blob2) = Some tx2
    ∧ (encrypt blob1 secret).2 = Py.Return (Binascii.hexlify ct1)
    ∧ (encrypt blob2 secret).2 = Py.Return (Binascii.hexlify ct2)
    ∧ ChaCha20.xor_bytes (take (length tx1) ct1) (take (length tx2) ct2)
      = ChaCha20.xor_bytes tx1 tx2.
Proof.
  destruct blob1 as [d1], blob2 as [d2]. cbn [Blob.data].
  intros [Hl1 Hh1]%andb_true_iff [Hl2 Hh2]%andb_true_iff Hlen Hsec.
  destruct (hex_chars_unhexlify d1 Hl1 Hh1) as [tx1 Htx1].
  destruct (hex_chars_unhexlify d2 Hl2 Hh2) as [tx2 Htx2].
  destruct (secret_bytes secret Hsec) as [key Hkey].
  assert (Hbytes : length tx1 = length tx2).
  { apply length_unhexlify in Htx1 as H1. apply length_unhexlify in Htx2 as H2.
    lia. }
  exists tx1, tx2.
  exists (ChaCha20Poly1305.encrypt (Sha256.sha256 key) zero_nonce tx1 []),
    (ChaCha20Poly1305.encrypt (Sha256.sha256 key) zero_nonce tx2 []).
  rewrite (encrypt_checked d1 secret tx1 key), (encrypt_checked d2 secret tx2 key)
    by done.
  repeat (split; [done |]).
  unfold ChaCha20Poly1305.encrypt.
  rewrite !take_app_length' by (by rewrite length_chacha20_encrypt).
  unfold ChaCha20.encrypt. rewrite <- Hbytes.
  by apply xor_blocks_cancel.
Qed.

End NonceFacts.

(** ** Cryptographer: more on the signature encoding *)

Section MoreSignatureFacts.
Import Cryptographer.

Lemma int_to_bytes_one_byte (num : Z) :
  0 ≤ num < 256 → int_to_bytes num = Py.Return [Bytes.byte_of_Z num].
Proof.
  intros Hn. unfold int_to_bytes, bit_length.
  destruct (Z.ltb_spec num 0); [lia |].
  destruct (Z.eqb_spec num 0) as [-> | Hne]; [reflexivity |].
  assert (Hlog : 0 ≤ Z.log2 (Z.abs num) < 8).
  { rewrite Z.abs_eq by lia. split; [apply Z.log2_nonneg |].
    apply Z.log2_lt_pow2; lia. }
  assert (Hk : Z.to_nat ((Z.log2 (Z.abs num) + 1 + 7) / 8) = 1%nat).
  { assert ((Z.log2 (Z.abs num) + 1 + 7) / 8 = 1); [| lia].
    symmetry. apply (Z.div_unique _ 8 1 (Z.log2 (Z.abs num))); lia. }
  by rewrite Hk.
Qed.

Lemma int_to_bytes_two_bytes (num : Z) :
  256 ≤ num < 512 →
  int_to_bytes num = Py.Return [x01; Bytes.byte_of_Z num].
Proof.
  intros Hn. unfold int_to_bytes, bit_length.
  destruct (Z.ltb_spec num 0); [lia |].
  destruct (Z.eqb_spec num 0) as [-> | Hne]; [lia |].
  assert (Hlog : Z.log2 (Z.abs num) = 8).
  { rewrite Z.abs_eq by lia. apply Z.log2_unique; lia. }
  rewrite Hlog. change (Z.to_nat ((8 + 1 + 7) / 8)) with 2%nat.
  cbn [Bytes.be_bytes Bytes.le_bytes reverse rev_append].
  unfold Bytes.be_bytes. cbn [Bytes.le_bytes]. unfold reverse. cbn [rev_append].
  do 3 f_equal. unfold Bytes.byte_of_Z.
  assert (num / 256 = 1) as ->
    by (symmetry; apply (Z.div_unique _ 256 1 (num - 256)); lia).
  reflexivity.
Qed.

Lemma Z_of_byte_range (b : byte) : 0 ≤ Bytes.Z_of_byte b < 256.
Proof.
  unfold Bytes.Z_of_byte. pose proof (Byte.to_N_bounded b). lia.
Qed.

Lemma byte_of_Z_of_byte (b : byte) : Bytes.byte_of_Z (Bytes.Z_of_byte b) = b.
Proof.
  unfold Bytes.byte_of_Z, Bytes.Z_of_byte.
  rewrite Z.mod_small by (pose proof (Byte.to_N_bounded b); lia).
  by rewrite N2Z.id, byte_of_N_to_N.
Qed.

Lemma Z_of_byte_of_Z (z : Z) :
  0 ≤ z < 256 → Bytes.Z_of_byte (Bytes.byte_of_Z z) = z.
Proof.
  intros Hz. unfold Bytes.byte_of_Z, Bytes.Z_of_byte.
  rewrite to_N_byte_of_N, Z.mod_small by done.
  rewrite N.mod_small by lia. lia.
Qed.

(** X18. [sigrec_decode] undoes [sigrec_encode]: on a signature with a
    recovery id of at most 224 in position 64, [sigrec_encode] returns 65
    bytes, the id plus 31 in front of the first 64 bytes, and
    [sigrec_decode] of them returns the first 65 bytes of the signature. *)
Theorem sigrec_decode_of_encode (rsig_rid : bytes) (rid : byte) :
  rsig_rid !! 64%nat = Some rid → Bytes.Z_of_byte rid ≤ 224 →
  ∃ sigrec,
    sigrec_encode rsig_rid = Py.Return sigrec
    ∧ sigrec = Bytes.byte_of_Z (Bytes.Z_of_byte rid + 31) :: take 64 rsig_rid
    ∧ length sigrec = 65%nat
    ∧ sigrec_decode sigrec = Py.Return (take 65 rsig_rid).
Proof.
  intros Hrid Hsmall. pose proof (Z_of_byte_range rid) as Hr.
  pose proof (lookup_lt_Some _ _ _ Hrid) as Hlen.
  unfold sigrec_encode. rewrite Hrid.
  rewrite int_to_bytes_one_byte by lia. cbn [Py.bind app].
  eexists. split; [reflexivity |]. split; [reflexivity |].
  split; [cbn [length]; rewrite length_take; lia |].
  cbn [sigrec_decode]. rewrite Z_of_byte_of_Z by lia.
  replace (Bytes.Z_of_byte rid + 31 - 31) with (Bytes.Z_of_byte rid) by lia.
  rewrite int_to_bytes_one_byte by lia. cbn [Py.bind].
  rewrite byte_of_Z_of_byte. f_equal.
  rewrite (take_S_r rsig_rid 64 rid Hrid). done.
Qed.

(** X19. [sigrec_encode] undoes [sigrec_decode]: on 65 bytes whose first is
    at least 31, [sigrec_decode] returns 65 bytes, the last being the first
    byte minus 31, and [sigrec_encode] of them returns the input. *)
Theorem sigrec_encode_of_decode (first : byte) (rsig : bytes) :
  31 ≤ Bytes.Z_of_byte first → length rsig = 64%nat →
  ∃ rsig_rid,
    sigrec_decode (first :: rsig) = Py.Return rsig_rid
    ∧ rsig_rid = rsig ++ [Bytes.byte_of_Z (Bytes.Z_of_byte first - 31)]
    ∧ sigrec_encode rsig_rid = Py.Return (first :: rsig).
Proof.
  intros Hfirst Hlen. pose proof (Z_of_byte_range first) as Hr.
  cbn [sigrec_decode]. rewrite int_to_bytes_one_byte by lia.
  cbn [Py.bind]. eexists. split; [reflexivity |]. split; [reflexivity |].
  unfold sigrec_encode.
  rewrite take_app_length' by done.
  rewrite lookup_app_r by lia. rewrite Hlen.
  cbn [lookup list_lookup Nat.sub]. rewrite Z_of_byte_of_Z by lia.
  replace (Bytes.Z_of_byte first - 31 + 31) with (Bytes.Z_of_byte first)
    by lia.
  rewrite int_to_bytes_one_byte by lia. cbn [Py.bind app].
  by rewrite byte_of_Z_of_byte.
Qed.

(** X20. Where the two encodings fail.  [sigrec_encode] raises [IndexError]
    on fewer than 65 bytes; [sigrec_decode] raises [IndexError] on no bytes
    and [OverflowError] on a first byte below 31; and a recovery id above
    224 makes [sigrec_encode] return 66 bytes, which [sigrec_decode] rejects
    with [OverflowError]. *)
Theorem sigrec_failures :
  (∀ rsig_rid : bytes,
     (length rsig_rid < 65)%nat →
     sigrec_encode rsig_rid = Py.Raise Py.IndexError)
  ∧ sigrec_decode [] = Py.Raise Py.IndexError
  ∧ (∀ (first : byte) (rsig : bytes),
       Bytes.Z_of_byte first < 31 →
       sigrec_decode (first :: rsig) = Py.Raise Py.OverflowError)
  ∧ (∀ (rsig_rid : bytes) (rid : byte),
       rsig_rid !! 64%nat = Some rid → 224 < Bytes.Z_of_byte rid →
       ∃ sigrec,
         sigrec_encode rsig_rid = Py.Return sigrec
         ∧ length sigrec = 66%nat
         ∧ sigrec_decode sigrec = Py.Raise Py.OverflowError).
Proof.
  split; [| split; [| split]].
  - intros rsig_rid Hlen. unfold sigrec_encode.
    by rewrite lookup_ge_None_2 by lia.
  - reflexivity.
  - intros first rsig Hfirst. cbn [sigrec_decode]. unfold int_to_bytes.
    pose proof (Z_of_byte_range first).
    by destruct (Z.ltb_spec (Bytes.Z_of_byte first - 31) 0); [| lia].
  - intros rsig_rid rid Hrid Hbig. pose proof (Z_of_byte_range rid) as Hr.
    pose proof (lookup_lt_Some _ _ _ Hrid) as Hlen.
    unfold sigrec_encode. rewrite Hrid.
    rewrite int_to_bytes_two_bytes by lia. cbn [Py.bind app].
    eexists. split; [reflexivity |].
    split; [cbn [length]; rewrite length_take; lia |].
    reflexivity.
Qed.

Lemma length_string_of_list_ascii (l : list ascii) :
  String.length (string_of_list_ascii l) = length l.
Proof. induction l as [| c l IH]; [done |]. cbn. by rewrite IH. Qed.

Lemma length_zbase32_encode (bs : bytes) :
  String.length (ZBase32.encode_bytes bs) = ((8 * length bs + 4) / 5)%nat.
Proof.
  unfold ZBase32.encode_bytes.
  rewrite length_string_of_list_ascii, length_fmap.
  apply length_be_digits.
Qed.

Lemma encode_digit_in_alphabet (d : N) :
  ZBase32.encode_digit d ∈ ZBase32.alphabet.
Proof.
  unfold ZBase32.encode_digit.
  destruct (nth_in_or_default (N.to_nat d) ZBase32.alphabet "y"%char)
    as [Hin | ->].
  - by apply list_elem_of_In.
  - apply list_elem_of_here.
Qed.

(** X21. With a [coincurve] that returns 64 bytes and a recovery id from 0
    to 3, the signature string of [sign] has 104 characters, all of the
    zbase32 alphabet, and stands for 65 bytes whose first is the recovery id
    plus 31. *)
Theorem sign_output_shape `{C : Coincurve} (laws : CoincurveLaws C)
    (message : bytes) (sk : PrivateKey) :
  ∃ zb32_sig first rsig,
    sign message sk = Py.Return (Some zb32_sig)
    ∧ String.length zb32_sig = 104%nat
    ∧ Forall (fun c => c ∈ ZBase32.alphabet) (list_ascii_of_string zb32_sig)
    ∧ ZBase32.decode_bytes zb32_sig = Py.Return (first :: rsig)
    ∧ length rsig = 64%nat
    ∧ 31 ≤ Bytes.Z_of_byte first ≤ 34.
Proof.
  destruct (sign_recoverable_format sk (LN_MESSAGE_PREFIX ++ message) sha256d)
    as (rsig & rid & Hsig & Hlen & Hrid).
  assert (Hlook : (rsig ++ [rid]) !! 64%nat = Some rid).
  { rewrite lookup_app_r by lia. by rewrite Hlen. }
  assert (Hsmall : 0 ≤ Bytes.Z_of_byte rid ≤ 3)
    by (unfold Bytes.Z_of_byte; lia).
  destruct (sigrec_decode_of_encode (rsig ++ [rid]) rid Hlook)
    as (sigrec & Henc & Hshape & Hl65 & _); [lia |].
  exists (ZBase32.encode_bytes sigrec),
    (Bytes.byte_of_Z (Bytes.Z_of_byte rid + 31)), rsig.
  unfold sign. rewrite Hsig, Henc. cbn [Py.bind].
  split; [done |]. split; [by rewrite length_zbase32_encode, Hl65 |].
  split.
  - unfold ZBase32.encode_bytes. rewrite list_ascii_of_string_of_list_ascii.
    apply Forall_fmap, Forall_forall. intros d _.
    apply encode_digit_in_alphabet.
  - rewrite zbase32_decode_encode, Hshape, take_app_length' by done.
    split; [done |]. split; [done |]. rewrite Z_of_byte_of_Z; lia.
Qed.

(** X22. Which signatures make [recover_pk] raise.  An exception of the
    zbase32 decoding reaches the caller; so does the [IndexError] of an
    empty decoded signature and the [OverflowError] of a first byte below
    31.  In every other case [recover_pk] returns: the recovered key when
    [coincurve] returns one, [None] when [coincurve] raises. *)
Theorem recover_pk_outcomes `{C : Coincurve} (message : bytes)
    (zb32_sig : string) :
  match ZBase32.decode_bytes zb32_sig with
  | Py.Raise e => recover_pk message zb32_sig = Py.Raise e
  | Py.Return [] => recover_pk message zb32_sig = Py.Raise Py.IndexError
  | Py.Return (first :: rsig) =>
      if Bytes.Z_of_byte first <? 31
      then recover_pk message zb32_sig = Py.Raise Py.OverflowError
      else
        recover_pk message zb32_sig
        = Py.Return
            match from_signature_and_message
                    (rsig ++ [Bytes.byte_of_Z (Bytes.Z_of_byte first - 31)])
                    (LN_MESSAGE_PREFIX ++ message) sha256d with
            | Py.Return pk => Some pk
            | Py.Raise _ => None
            end
  end.
Proof.
  unfold recover_pk.
  destruct (ZBase32.decode_bytes zb32_sig) as [[| first rsig] | e];
    cbn [Py.bind]; [done | | done].
  pose proof (Z_of_byte_range first) as Hr.
  destruct (Z.ltb_spec (Bytes.Z_of_byte first) 31) as [Hlt | Hge].
  - cbn [sigrec_decode]. unfold int_to_bytes.
    by destruct (Z.ltb_spec (Bytes.Z_of_byte first - 31) 0); [| lia].
  - cbn [sigrec_decode]. rewrite int_to_bytes_one_byte by lia.
    cbn [Py.bind]. by destruct (from_signature_and_message _ _ _).
Qed.

(** X23. [sha256d] always returns 32 bytes, the digest size that the
    [hasher] argument of [coincurve] asks for. *)
Theorem sha256d_has_32_bytes (message : bytes) :
  length (sha256d message) = 32%nat.
Proof. unfold sha256d. apply length_sha256. Qed.

End MoreSignatureFacts.

(** ** The further statements at concrete inputs *)

Section MoreExamples.
Import Cryptographer.

Lemma from_dict_to_dict_round_trip_witness :
  let a := Appointment.init (Py.Str "4a5e1e4baab89f3a32518a88c31bc87f")
             (Py.Int 100) (Py.Int 200) (Py.Int 20) (Py.Str "8f3102") in
  Appointment.locator a ≠ Py.None_
  ∧ Appointment.from_dict (list_to_map (Appointment.to_dict a)) = Py.Return a.
Proof.
  intros a.
  assert (H1 : Appointment.locator a ≠ Py.None_) by discriminate.
  split; [exact H1 |].
  refine (proj1 (from_dict_to_dict_round_trip a H1 _ _ _ _));
    discriminate.
Defined.

Lemma from_dict_ignores_other_keys_witness :
  let d : gmap string Py.value :=
    list_to_map [("locator", Py.Str "4a5e1e4baab89f3a32518a88c31bc87f");
                 ("start_time", Py.Int 100); ("end_time", Py.Int 200);
                 ("to_self_delay", Py.Int 20);
                 ("encrypted_blob", Py.Str "8f3102")] in
  (("triggered" : string) ∉ Appointment.required_keys)
  ∧ Appointment.from_dict (<["triggered" := Py.Bool true]> d)
    = Appointment.from_dict d.
Proof.
  intros d.
  assert (Hk : ("triggered" : string) ∉ Appointment.required_keys).
  { unfold Appointment.required_keys. rewrite !not_elem_of_cons.
    repeat split; try discriminate. apply not_elem_of_nil. }
  split; [exact Hk |].
  exact (proj1 (from_dict_ignores_other_keys d "triggered" (Py.Bool true) Hk)).
Defined.

Lemma encrypt_output_shape_witness :
  let blob := {| Blob.data := "6097CDF5" |} in
  let secret :=
    Py.Str "b2e984a570f6f49bc38ace178e09147b0aa296cbb7c92eb01412f7e2d07b5659" in
  even_length_hex (Blob.data blob) = true
  ∧ check_sha256_hex_format secret = true
  ∧ ∃ encrypted,
      (encrypt blob secret).2 = Py.Return encrypted
      ∧ String.length encrypted = 40%nat.
Proof.
  intros blob secret.
  assert (Hd : even_length_hex (Blob.data blob) = true) by reflexivity.
  assert (Hs : check_sha256_hex_format secret = true) by reflexivity.
  split; [exact Hd |]. split; [exact Hs |].
  destruct (encrypt_output_shape blob secret Hd Hs)
    as (encrypted & Henc & Hlen & _).
  exists encrypted. split; [by rewrite Henc | exact Hlen].
Defined.

Lemma decrypt_returns_on_well_formed_input_witness :
  let encrypted_blob := {| EncryptedBlob.data := "8f31" |} in
  let secret :=
    Py.Str "b2e984a570f6f49bc38ace178e09147b0aa296cbb7c92eb01412f7e2d07b5659" in
  even_length_hex (EncryptedBlob.data encrypted_blob) = true
  ∧ check_sha256_hex_format secret = true
  ∧ (decrypt encrypted_blob secret).2 = Py.Return None.
Proof.
  intros encrypted_blob secret.
  assert (Hd : even_length_hex (EncryptedBlob.data encrypted_blob) = true)
    by reflexivity.
  assert (Hs : check_sha256_hex_format secret = true) by reflexivity.
  split; [exact Hd |]. split; [exact Hs |].
  destruct (decrypt_returns_on_well_formed_input encrypted_blob secret Hd Hs)
    as (blob & Hdec & Hshort & _).
  rewrite Hdec. cbn [snd]. f_equal. apply Hshort. cbn. lia.
Defined.

Lemma encrypt_of_decrypted_witness :
  let encrypted_blob :=
    {| EncryptedBlob.data :=
         "8f31028097a8bf12a92e088caab5cf3fcddf0d35ed2b72c24b12269373efcdea04f9d2a820adafe830c20ff132d89810" |} in
  let secret :=
    Py.Str "b2e984a570f6f49bc38ace178e09147b0aa296cbb7c92eb01412f7e2d07b5659" in
  let plain :=
    "6097cdf52309b1b2124efeed36bd34f46dc1c25ad23ac86f28380f746254f777"%string in
  (decrypt encrypted_blob secret).2 = Py.Return (Some plain)
  ∧ (encrypt {| Blob.data := plain |} secret).2
    = Py.Return (lower (EncryptedBlob.data encrypted_blob)).
Proof.
  intros encrypted_blob secret plain.
  assert (Hdec : (decrypt encrypted_blob secret).2 = Py.Return (Some plain))
    by (vm_compute; reflexivity).
  split; [exact Hdec |].
  exact (encrypt_of_decrypted encrypted_blob secret plain Hdec).
Defined.

(** Two characters that are no hex digits: [zz], which is ASCII, and twice
    the character of code point 233, which is not. *)
Lemma non_hex_data_raises_in_unhexlify_witness :
  let secret :=
    Py.Str "b2e984a570f6f49bc38ace178e09147b0aa296cbb7c92eb01412f7e2d07b5659" in
  let latin := String (ascii_of_N 233) (String (ascii_of_N 233) EmptyString) in
  (String.length "zz" mod 2 =? 0)%nat = true
  ∧ forallb is_hex_char (list_ascii_of_string "zz") = false
  ∧ (String.length latin mod 2 =? 0)%nat = true
  ∧ forallb is_hex_char (list_ascii_of_string latin) = false
  ∧ check_sha256_hex_format secret = true
  ∧ decrypt {| EncryptedBlob.data := "zz" |} secret
    = ([KeyDerivation; CipherSetup], Py.Raise Py.BinasciiError)
  ∧ encrypt {| Blob.data := latin |} secret
    = ([], Py.Raise
             (Py.ValueError
                "string argument should contain only ASCII characters")).
Proof.
  intros secret latin.
  assert (Hs : check_sha256_hex_format secret = true) by reflexivity.
  split; [reflexivity |]. split; [reflexivity |].
  split; [reflexivity |]. split; [reflexivity |]. split; [exact Hs |].
  destruct (non_hex_data_raises_in_unhexlify "zz" secret eq_refl eq_refl Hs)
    as (e & He & _ & _ & Hdec).
  destruct (non_hex_data_raises_in_unhexlify latin secret eq_refl eq_refl Hs)
    as (e' & He' & _ & Henc & _).
  rewrite Hdec, Henc, He, He'. split; reflexivity.
Defined.

Lemma same_secret_leaks_xor_witness :
  let blob1 := {| Blob.data := "00ff10" |} in
  let blob2 := {| Blob.data := "a1b2c3" |} in
  let secret :=
    Py.Str "b2e984a570f6f49bc38ace178e09147b0aa296cbb7c92eb01412f7e2d07b5659" in
  even_length_hex (Blob.data blob1) = true
  ∧ even_length_hex (Blob.data blob2) = true
  ∧ String.length (Blob.data blob1) = String.length (Blob.data blob2)
  ∧ check_sha256_hex_format secret = true
  ∧ ∃ tx1 tx2 ct1 ct2,
      (encrypt blob1 secret).2 = Py.Return (Binascii.hexlify ct1)
      ∧ (encrypt blob2 secret).2 = Py.Return (Binascii.hexlify ct2)
      ∧ ChaCha20.xor_bytes (take (length tx1) ct1) (take (length tx2) ct2)
        = ChaCha20.xor_bytes tx1 tx2.
Proof.
  intros blob1 blob2 secret.
  assert (Hs : check_sha256_hex_format secret = true) by reflexivity.
  split; [reflexivity |]. split; [reflexivity |]. split; [reflexivity |].
  split; [exact Hs |].
  destruct (same_secret_leaks_xor blob1 blob2 secret eq_refl eq_refl eq_refl Hs)
    as (tx1 & tx2 & ct1 & ct2 & _ & _ & H1 & H2 & Hxor).
  exists tx1, tx2, ct1, ct2. split; [exact H1 |]. split; [exact H2 | exact Hxor].
Defined.

Lemma sigrec_decode_of_encode_witness :
  let rsig_rid := replicate 64 x07 ++ [x01] in
  rsig_rid !! 64%nat = Some x01 ∧ Bytes.Z_of_byte x01 ≤ 224
  ∧ ∃ sigrec, sigrec_encode rsig_rid = Py.Return sigrec
              ∧ sigrec_decode sigrec = Py.Return (take 65 rsig_rid).
Proof.
  intros rsig_rid.
  assert (Hrid : rsig_rid !! 64%nat = Some x01) by reflexivity.
  assert (Hsmall : Bytes.Z_of_byte x01 ≤ 224) by (cbn; lia).
  split; [exact Hrid |]. split; [exact Hsmall |].
  destruct (sigrec_decode_of_encode rsig_rid x01 Hrid Hsmall)
    as (sigrec & Henc & _ & _ & Hdec).
  exists sigrec. split; [exact Henc | exact Hdec].
Defined.

Lemma sigrec_encode_of_decode_witness :
  let rsig := replicate 64 x07 in
  31 ≤ Bytes.Z_of_byte x20 ∧ length rsig = 64%nat
  ∧ ∃ rsig_rid, sigrec_decode (x20 :: rsig) = Py.Return rsig_rid
                ∧ sigrec_encode rsig_rid = Py.Return (x20 :: rsig).
Proof.
  intros rsig.
  assert (Hfirst : 31 ≤ Bytes.Z_of_byte x20) by (cbn; lia).
  assert (Hlen : length rsig = 64%nat) by reflexivity.
  split; [exact Hfirst |]. split; [exact Hlen |].
  destruct (sigrec_encode_of_decode x20 rsig Hfirst Hlen)
    as (rsig_rid & Hdec & _ & Henc).
  exists rsig_rid. split; [exact Hdec | exact Henc].
Defined.

Lemma sign_output_shape_witness :
  let sk : @PrivateKey ByteCurve.curve := "k"%byte in
  ∃ zb32_sig,
    sign ["h"; "i"]%byte sk = Py.Return (Some zb32_sig)
    ∧ String.length zb32_sig = 104%nat.
Proof.
  intros sk.
  destruct (sign_output_shape byte_curve_laws ["h"; "i"]%byte sk)
    as (zb32_sig & _ & _ & Hsig & Hlen & _).
  exists zb32_sig. split; [exact Hsig | exact Hlen].
Defined.

End MoreExamples.

(** ** Appointment: the json export tells appointments apart *)

Section JsonInjective.
Import Appointment.

Lemma append_String (c : ascii) (s r : string) :
  (String c s ++ r)%string = String c (s ++ r).
Proof. reflexivity. Qed.

Lemma unescape_escape_char (c : ascii) (x : string) :
  unescape_head (Json.escape_char c ++ x) = Some (c, x).
Proof. destruct c as [[] [] [] [] [] [] [] []]; reflexivity. Qed.

Lemma escape_inj (s s' r r' : string) :
  (Json.escape s ++ String Json.dquote r
   = Json.escape s' ++ String Json.dquote r')%string →
  s = s' ∧ r = r'.
Proof.
  revert s'. induction s as [| c s IH]; intros [| c' s'] H.
  - by injection H as ->.
  - apply (f_equal unescape_head) in H. cbn [Json.escape] in H.
    rewrite string_app_assoc, unescape_escape_char in H. done.
  - apply (f_equal unescape_head) in H. cbn [Json.escape] in H.
    rewrite string_app_assoc, unescape_escape_char in H. done.
  - cbn [Json.escape] in H. rewrite !string_app_assoc in H.
    apply (f_equal unescape_head) in H.
    rewrite !unescape_escape_char in H. injection H as -> H.
    destruct (IH s' H) as [-> ->]. done.
Qed.

Lemma all_num_delimited (s s' r r' : string) :
  all_num s = true → all_num s' = true →
  at_delimiter r = true → at_delimiter r' = true →
  (s ++ r = s' ++ r')%string → s = s' ∧ r = r'.
Proof.
  assert (Hclash : ∀ c t r0, num_char c = true →
            at_delimiter r0 = true → r0 ≠ String c t).
  { intros c t r0 Hc Hr ->. cbn in Hr. unfold num_char in Hc.
    destruct (N.eqb_spec (N_of_ascii c) 44), (N.eqb_spec (N_of_ascii c) 125),
      (N.eqb_spec (N_of_ascii c) 45), (N.leb_spec 48 (N_of_ascii c)),
      (N.leb_spec (N_of_ascii c) 57); cbn in *; try done; lia. }
  revert s'. induction s as [| c s IH]; intros [| c' s'] Hs Hs' Hr Hr' H.
  - done.
  - cbn [all_num] in Hs'. apply andb_true_iff in Hs' as [Hc' _].
    exfalso. by apply (Hclash c' (s' ++ r')%string r).
  - cbn [all_num] in Hs. apply andb_true_iff in Hs as [Hc _].
    exfalso. by apply (Hclash c (s ++ r)%string r').
  - cbn [all_num] in Hs, Hs'.
    apply andb_true_iff in Hs as [_ Hs], Hs' as [_ Hs'].
    rewrite !append_String in H. injection H as -> H.
    destruct (IH s' Hs Hs' Hr Hr' H) as [-> ->]. done.
Qed.

Lemma string_of_uint_all_num (u : Decimal.uint) :
  all_num (DecimalString.NilEmpty.string_of_uint u) = true.
Proof. induction u; cbn; done. Qed.

Lemma dump_int_all_num (n : Z) : all_num (Json.dump_int n) = true.
Proof.
  unfold Json.dump_int, DecimalString.NilZero.string_of_int,
    DecimalString.NilZero.string_of_uint.
  destruct (Z.to_int n) as [u | u];
    (destruct u; [reflexivity | cbn [all_num num_char];
                  try apply (string_of_uint_all_num (_ u)) ..]).
Qed.

Lemma dump_int_inj (n n' : Z) : Json.dump_int n = Json.dump_int n' → n = n'.
Proof.
  unfold Json.dump_int. intros H.
  assert (Hnn : ∀ z, Z.to_int z ≠ Decimal.Pos Decimal.Nil
                     ∧ Z.to_int z ≠ Decimal.Neg Decimal.Nil).
  { intros [| p | p]; cbn; split; try discriminate;
      intros [= Hp]; by apply (DecimalPos.Unsigned.to_uint_nonnil p). }
  apply (f_equal DecimalString.NilZero.int_of_string) in H.
  rewrite !DecimalString.NilZero.isi in H by apply Hnn.
  injection H as H. apply (f_equal Z.of_int) in H.
  by rewrite !DecimalZ.of_to in H.
Qed.

Lemma dump_value_head (v : Py.value) :
  ∃ c rest, Json.dump_value v = String c rest ∧ char_class c = value_class v.
Proof.
  destruct v as [| [] | n | s]; try (by eexists _, _).
  pose proof (dump_int_all_num n) as Hnum.
  cbn [Json.dump_value value_class].
  destruct (Json.dump_int n) as [| c rest] eqn:Hd.
  - exfalso. unfold Json.dump_int, DecimalString.NilZero.string_of_int,
      DecimalString.NilZero.string_of_uint in Hd.
    destruct (Z.to_int n) as [u | u]; destruct u; discriminate.
  - exists c, rest. split; [done |].
    cbn [all_num] in Hnum. apply andb_true_iff in Hnum as [Hc _].
    unfold char_class. rewrite Hc. unfold num_char in Hc.
    destruct (N.eqb_spec (N_of_ascii c) 110), (N.eqb_spec (N_of_ascii c) 116),
      (N.eqb_spec (N_of_ascii c) 102), (N.eqb_spec (N_of_ascii c) 34),
      (N.eqb_spec (N_of_ascii c) 45), (N.leb_spec 48 (N_of_ascii c)),
      (N.leb_spec (N_of_ascii c) 57); cbn in *; try done; lia.
Qed.

(** A json scalar followed by a comma or a closing brace can be read in one
    way only. *)
Lemma dump_value_inj (v v' : Py.value) (r r' : string) :
  at_delimiter r = true → at_delimiter r' = true →
  (Json.dump_value v ++ r = Json.dump_value v' ++ r')%string →
  v = v' ∧ r = r'.
Proof.
  intros Hr Hr' H.
  assert (Hclass : value_class v = value_class v').
  { destruct (dump_value_head v) as (c & t & Hv & Hc).
    destruct (dump_value_head v') as (c' & t' & Hv' & Hc').
    rewrite Hv, Hv', !append_String in H. injection H as -> _. congruence. }
  destruct v as [| [] | n | s], v' as [| [] | n' | s']; try discriminate Hclass.
  - split; [done |]. by apply (inj (String.append "null")).
  - split; [done |]. by apply (inj (String.append "true")).
  - split; [done |]. by apply (inj (String.append "false")).
  - cbn [Json.dump_value] in H.
    destruct (all_num_delimited _ _ r r' (dump_int_all_num n)
                (dump_int_all_num n') Hr Hr' H) as [Hn ->].
    by rewrite (dump_int_inj n n' Hn).
  - cbn [Json.dump_value] in H. unfold Json.dump_str, Json.quoted in H.
    rewrite !append_String in H. injection H as H.
    rewrite !string_app_assoc in H. unfold Json.str1 in H.
    rewrite !append_String in H.
    destruct (escape_inj s s' r r' H) as [-> ->]. done.
Qed.

Lemma to_json_explicit (self : t) (triggered : bool) :
  to_json self triggered
  = ("{" ++ Json.quoted "encrypted_blob" ++ ":"
         ++ Json.dump_value (data (encrypted_blob self))
     ++ "," ++ Json.quoted "end_time" ++ ":"
         ++ Json.dump_value (end_time self)
     ++ "," ++ Json.quoted "locator" ++ ":"
         ++ Json.dump_value (locator self)
     ++ "," ++ Json.quoted "start_time" ++ ":"
         ++ Json.dump_value (start_time self)
     ++ "," ++ Json.quoted "to_self_delay" ++ ":"
         ++ Json.dump_value (to_self_delay self)
     ++ "," ++ Json.quoted "triggered" ++ ":"
         ++ Json.dump_value (Py.Bool triggered)
     ++ "}")%string.
Proof.
  unfold to_json, Json.dumps.
  rewrite (sorted_to_json_dict self triggered).
  cbn [fmap list_fmap String.concat]. unfold Json.dump_item. cbn [fst snd].
  by rewrite !string_app_assoc.
Qed.

(** X24. The json export tells appointments apart: two calls of [to_json]
    that return the same string were made on appointments with the same
    five field values and with the same [triggered] flag. *)
Theorem to_json_injective (a b : t) (ta tb : bool) :
  to_json a ta = to_json b tb → a = b ∧ ta = tb.
Proof.
  rewrite !to_json_explicit. intros H.
  repeat match type of H with
  | (?p ++ _ = ?p ++ _)%string => apply (inj (String.append p)) in H
  | (Json.dump_value _ ++ _ = Json.dump_value _ ++ _)%string =>
      let Hv := fresh "Hv" in
      apply dump_value_inj in H as [Hv H]; [| reflexivity | reflexivity]
  end.
  destruct a as [la sa ea da [ba]], b as [lb sb eb db [bb]]. cbn in *.
  subst. split; [done |]. by injection Hv4 as ->.
Qed.

End JsonInjective.

Section JsonInjectiveExamples.
Import Appointment.

(** An appointment built by [init] and the same one written as a record,
    one of whose integers is negative and whose locator needs escaping. *)
Lemma to_json_injective_witness :
  let a := init (Py.Str "4a5e\1e4b") (Py.Int (-100)) (Py.Int 200)
             Py.None_ (Py.Str "8f3102") in
  let b := {| locator := Py.Str "4a5e\1e4b"; start_time := Py.Int (-100);
              end_time := Py.Int 200; to_self_delay := Py.None_;
              encrypted_blob := {| data := Py.Str "8f3102" |} |} in
  to_json a true = to_json b true ∧ a = b ∧ true = true.
Proof.
  intros a b.
  assert (H : to_json a true = to_json b true) by (vm_compute; reflexivity).
  split; [exact H |].
  exact (to_json_injective a b true true H).
Defined.

End JsonInjectiveExamples.
